(** * InterTalentPortal: zip-code geocoding cache and radius search

    A shallow embedding of the geospatial scripts of the repository:

    - [scripts/import-to-ray-test-accurate.ts]: the zip-coordinate cache
      ([loadZipCache], [saveZipCache]), the remote resolver
      ([getZipCoordinates]) and the pre-fetch loop of [importData];
    - [scripts/import-to-ray-test.ts]: the prefix table [ZIP_RANGES] and
      [getApproximateLocation];
    - the geospatial performance script ([runTests]): the three radius
      queries it sends to the database.

    JavaScript numbers are IEEE binary64 values (Rocq's primitive floats);
    JavaScript strings are modelled as ASCII strings; the arithmetic of the
    SQL queries is idealised as arithmetic on the real numbers. *)

From Stdlib Require Import Ascii.
From Stdlib Require Import Floats.PrimFloat.
From Stdlib Require Import Reals Lra Psatz.
From stdpp Require Import base gmap strings list pretty sorting.

(** A decimal literal denotes the nearest double, in JavaScript as here. *)
Set Warnings "-inexact-float".

(* ===================================================================== *)
(** * Part I: the programs                                                *)
(* ===================================================================== *)

(** ** JavaScript values, as far as the scripts look at them *)

Module Js.

(** The values that [JSON.parse] produces, with numbers ranging over all
    doubles (so also [NaN] and the infinities, which [parseFloat] can
    return).  An object is the list of its own properties; a property that
    holds [undefined] is not told apart from an absent one by any code
    modelled here and is represented as absent. *)
#[local] Unset Elimination Schemes.
Inductive json : Type :=
| JNull
| JBool (b : bool)
| JNum (x : float)
| JStr (s : string)
| JArr (items : list json)
| JObj (fields : list (string * json)).
#[local] Set Elimination Schemes.

(** ToBoolean. *)
Definition truthy (v : json) : bool :=
  match v with
  | JNull => false
  | JBool b => b
  | JNum x => negb (is_zero x || is_nan x)
  | JStr s => negb (String.eqb s "")
  | JArr _ | JObj _ => true
  end.

(** ToBoolean of a value that may be [undefined] ([None]). *)
Definition truthy_opt (o : option json) : bool :=
  match o with
  | Some v => truthy v
  | None => false
  end.

(** [v || null]. *)
Definition or_null (v : json) : json :=
  if truthy v then v else JNull.

(** The first property called [k] of a property list. *)
Fixpoint assoc (k : string) (fields : list (string * json)) : option json :=
  match fields with
  | [] => None
  | (k', v) :: rest => if String.eqb k' k then Some v else assoc k rest
  end.

(** [v.k] for a property name [k] that is neither an index nor [length],
    on a value [v] other than [null]: only objects have such properties. *)
Definition get (v : json) (k : string) : option json :=
  match v with
  | JObj fields => assoc k fields
  | _ => None
  end.

(** [v[0]] on a value [v] other than [null]. *)
Definition get0 (v : json) : option json :=
  match v with
  | JObj fields => assoc "0" fields
  | JArr items => head items
  | JStr (String c _) => Some (JStr (String c EmptyString))
  | _ => None
  end.

(** [String.prototype.substring(0, n)]. *)
Definition substring0 (n : nat) (s : string) : string :=
  String.substring 0 n s.

(** What [JSON.parse] reads back from the text that [JSON.stringify]
    writes for a number: a finite number is written with digits that
    denote it exactly, except that negative zero is written [0]; [NaN]
    and the infinities are written [null]. *)
Definition stringify_number (x : float) : json :=
  if is_finite x
  then JNum (if PrimFloat.Leibniz.eqb x neg_zero then zero else x)
  else JNull.

(** [JSON.stringify], the text being represented by the value that
    [JSON.parse] reads back from it. *)
Fixpoint JSON_stringify (v : json) : json :=
  match v with
  | JNull => JNull
  | JBool b => JBool b
  | JNum x => stringify_number x
  | JStr s => JStr s
  | JArr items => JArr (map JSON_stringify items)
  | JObj fields => JObj (map (λ kv, (kv.1, JSON_stringify kv.2)) fields)
  end.

(** The characters of a string. *)
Fixpoint chars (s : string) : list json :=
  match s with
  | EmptyString => []
  | String c rest => JStr (String c EmptyString) :: chars rest
  end.

(** [Object.entries(v)]; [None] when it throws (on [null]). *)
Definition Object_entries (v : json) : option (list (string * json)) :=
  match v with
  | JNull => None
  | JBool _ | JNum _ => Some []
  | JStr s => Some (imap (λ i c, (pretty i, c)) (chars s))
  | JArr items => Some (imap (λ i x, (pretty i, x)) items)
  | JObj fields => Some fields
  end.

(** [o[k] = v] on an object [o] created by the literal [{}] and used as a
    record.  The name [__proto__] is special: the assignment runs the
    setter inherited from [Object.prototype] and creates no property. *)
Definition object_set (k : string) (v : json) (o : gmap string json)
  : gmap string json :=
  if decide (k = "__proto__") then o else <[k:=v]> o.

(** [JSON.stringify] of an object used as a record. *)
Definition JSON_stringify_record (o : gmap string json) : json :=
  JObj (map_to_list (JSON_stringify <$> o)).

(** The values a number survives [JSON.stringify] unchanged as. *)
Definition number_survives (x : float) : bool :=
  is_finite x && negb (PrimFloat.Leibniz.eqb x neg_zero).

(** The values all of whose numbers survive [JSON.stringify]. *)
Fixpoint survives (v : json) : bool :=
  match v with
  | JNull | JBool _ | JStr _ => true
  | JNum x => number_survives x
  | JArr items => forallb survives items
  | JObj fields => forallb (λ kv, survives kv.2) fields
  end.

End Js.

(** ** [scripts/import-to-ray-test-accurate.ts] *)

Module Accurate.
Import Js.

(** [interface ZipCoordinates].  TypeScript's annotations are erased at run
    time: [city] and [state] hold whatever the service sent. *)
Record ZipCoordinates : Type := {
  lat : float;
  lng : float;
  city : option json;
  state : option json
}.

(** A property of an object literal, absent when its value is [undefined]. *)
Definition property (k : string) (o : option json) : list (string * json) :=
  match o with
  | Some v => [(k, v)]
  | None => []
  end.

(** The object [{ lat, lng, city, state }]. *)
Definition object_of (c : ZipCoordinates) : json :=
  JObj ([("lat", JNum (lat c)); ("lng", JNum (lng c))]
        ++ property "city" (city c) ++ property "state" (state c)).

(** What the process does that can be seen from outside. *)
Inductive Event : Type :=
| Sleep (ms : nat)         (* [await new Promise(r => setTimeout(r, ms))] *)
| Fetch (url : string).    (* [fetch(url, { signal })] *)

(** A response: its HTTP status, and what [await response.json()] gives,
    [None] when it rejects because the body is not JSON text. *)
Record Response : Type := {
  status : nat;
  body : option json
}.

(** [response.ok]: the status is in the range 200-299. *)
Definition ok (r : Response) : bool :=
  bool_decide (200 ≤ status r ≤ 299).

(** How [await fetch(...)] ends: it rejects (the network failed, or the
    five-second timer aborted the request), or it resolves to a response. *)
Inductive FetchOutcome : Type :=
| FetchRejected
| FetchResolved (r : Response).

(** What [JSON.parse(fs.readFileSync(..))] makes of a file: it throws, or
    it returns a value. *)
Inductive FileContent : Type :=
| NotJson
| Json (v : json).

(** The run-time environment: [parseFloat], and the geocoding service,
    whose answer to a request may depend on everything that happened
    before. *)
Record Runtime : Type := {
  parseFloat : option json → float;
  service : list Event → string → FetchOutcome
}.

(** The state of the process and of its surroundings: the module-level
    [zipCache], the file [ZIP_CACHE_FILE] ([None] when it does not exist)
    and the events so far. *)
Record World : Type := {
  zipCache : gmap string json;
  cacheFile : option FileContent;
  trace : list Event
}.

Definition with_zipCache (c : gmap string json) (w : World) : World :=
  {| zipCache := c; cacheFile := cacheFile w; trace := trace w |}.

Definition with_cacheFile (f : option FileContent) (w : World) : World :=
  {| zipCache := zipCache w; cacheFile := f; trace := trace w |}.

Definition with_trace (t : list Event) (w : World) : World :=
  {| zipCache := zipCache w; cacheFile := cacheFile w; trace := t |}.

(** Computations on the world. *)
Definition Run (A : Type) : Type := World → A * World.

#[global] Instance Run_ret : MRet Run := λ A a w, (a, w).

#[global] Instance Run_bind : MBind Run :=
  λ A B k m w, let (a, w') := m w in k a w'.

Definition zipCache_has (k : string) : Run bool :=
  λ w, (bool_decide (is_Some (zipCache w !! k)), w).

(** [zipCache.get(k)], for a key that is present. *)
Definition zipCache_get (k : string) : Run json :=
  λ w, (default JNull (zipCache w !! k), w).

Definition zipCache_set (k : string) (v : json) : Run unit :=
  λ w, (tt, with_zipCache (<[k:=v]> (zipCache w)) w).

Definition sleep (ms : nat) : Run unit :=
  λ w, (tt, with_trace (trace w ++ [Sleep ms]) w).

Definition fetch (rt : Runtime) (url : string) : Run FetchOutcome :=
  λ w, (service rt (trace w) url, with_trace (trace w ++ [Fetch url]) w).

Definition api_url (zip5 : string) : string :=
  "https://api.zippopotam.us/us/" +:+ zip5.

(** [loadZipCache]. *)
Definition loadZipCache : Run unit := λ w,
  match cacheFile w with
  | None => (tt, w)
  | Some NotJson => (tt, w)
  | Some (Json data) =>
      match Object_entries data with
      | None => (tt, w)
      | Some entries =>
          (tt, with_zipCache
                 (foldl (λ cache e, <[e.1:=e.2]> cache) (zipCache w) entries)
                 w)
      end
  end.

(** [saveZipCache].  The loop visits every entry of the map once; the
    object it builds does not depend on the order. *)
Definition saveZipCache : Run unit := λ w,
  let data := map_fold object_set ∅ (zipCache w) in
  (tt, with_cacheFile (Some (Json (JSON_stringify_record data))) w).

(** [data.places && data.places[0]], for [data] other than [null]:
    the first place when the condition holds. *)
Definition first_place (data : json) : option json :=
  let places := get data "places" in
  if truthy_opt places then
    let place := places ≫= get0 in
    if truthy_opt place then place else None
  else None.

(** The object built from the first place. *)
Definition coordinates_of_place (rt : Runtime) (place : json)
  : ZipCoordinates :=
  {| lat := parseFloat rt (get place "latitude");
     lng := parseFloat rt (get place "longitude");
     city := get place "place name";
     state := get place "state abbreviation" |}.

(** The path after the [if (response.ok)] block: [zipCache.set(zip5, null);
    return null]. *)
Definition invalid_zip (zip5 : string) : Run json :=
  zipCache_set zip5 JNull ≫= λ _, mret JNull.

(** [getZipCoordinates].  Every exception of the [try] block ends in the
    [catch] clause, which returns [null]. *)
Definition getZipCoordinates (rt : Runtime) (zipCode : string) : Run json :=
  let zip5 := substring0 5 zipCode in
  hit ← zipCache_has zip5;
  if hit : bool then
    cached ← zipCache_get zip5;
    mret (or_null cached)
  else
    _ ← sleep 100;
    outcome ← fetch rt (api_url zip5);
    match outcome with
    | FetchRejected => mret JNull                 (* [catch] *)
    | FetchResolved response =>
        if ok response then
          match body response with
          | None => mret JNull                     (* [catch] *)
          | Some JNull => mret JNull               (* TypeError; [catch] *)
          | Some data =>
              match first_place data with
              | Some place =>
                  let coords := object_of (coordinates_of_place rt place) in
                  _ ← zipCache_set zip5 coords;
                  mret coords
              | None => invalid_zip zip5
              end
          end
        else invalid_zip zip5
    end.

(** The values of the map's declared type, [ZipCoordinates | null], as
    they are at run time: [null] or an object. *)
Definition ZipCoordinates_or_null (v : json) : bool :=
  match v with
  | JNull | JObj _ => true
  | _ => false
  end.

(** The outcomes of the request that end in the [catch] clause: the
    request was rejected (network failure, or abort after five seconds), or
    a response with an ok status carried a body that is not JSON text, or
    the JSON text [null]. *)
Definition caught (o : FetchOutcome) : bool :=
  match o with
  | FetchRejected => true
  | FetchResolved r =>
      ok r && match body r with
              | None | Some JNull => true
              | Some _ => false
              end
  end.

(** The world once the delay has passed and the request has been made. *)
Definition requested (zip5 : string) (w : World) : World :=
  with_trace (trace w ++ [Sleep 100; Fetch (api_url zip5)]) w.

(** The cache of a process that starts with an empty cache and loads the
    file that [saveZipCache] wrote in the world [w]. *)
Definition reloaded (w : World) : gmap string json :=
  zipCache (loadZipCache (with_zipCache ∅ (saveZipCache w).2)).2.

(** The requests made, in order. *)
Definition remote_calls (t : list Event) : list string :=
  omap (λ e, match e with Fetch url => Some url | Sleep _ => None end) t.

(** [interface CSVRow]; of its sixteen columns the pre-fetch reads one. *)
Record CSVRow : Type := {
  ZipCode : string
}.

(** [uniqueZips.add(z)] on a set kept in insertion order. *)
Definition Set_add (s : list string) (z : string) : list string :=
  if decide (z ∈ s) then s else s ++ [z].

(** The set [uniqueZips] of [importData]. *)
Definition uniqueZips (records : list CSVRow) : list string :=
  foldl (λ s row,
           if String.eqb (ZipCode row) "" then s
           else Set_add s (substring0 5 (ZipCode row)))
        [] records.

(** The loop [for (const zip of uncachedZips)] with its two counters. *)
Fixpoint fetch_all (rt : Runtime) (zips : list string) (fetched failed : nat)
  : Run (nat * nat) :=
  match zips with
  | [] => mret (fetched, failed)
  | zip :: rest =>
      coords ← getZipCoordinates rt zip;
      if truthy coords
      then fetch_all rt rest (S fetched) failed
      else fetch_all rt rest fetched (S failed)
  end.

(** Step 3 of [importData]: the coordinates of the zips that are not in
    the cache are fetched, and the cache is saved if there were any. *)
Definition prefetch (rt : Runtime) (records : list CSVRow)
  : Run (nat * nat) :=
  λ w,
  let uncachedZips :=
    filter (λ z, zipCache w !! z = None) (uniqueZips records) in
  match uncachedZips with
  | [] => (0, 0, w)
  | _ =>
      (counts ← fetch_all rt uncachedZips 0 0;
       _ ← saveZipCache;
       mret counts) w
  end.

(** *** Sample surroundings, for the examples *)

(** A [parseFloat] that knows the numbers and two strings of digits. *)
Definition sample_parseFloat (o : option json) : float :=
  match o with
  | Some (JNum x) => x
  | Some (JStr "41.0117") => 41.0117%float
  | Some (JStr "-81.8357") => (-81.8357)%float
  | _ => nan
  end.

(** The body the service sends for 44289. *)
Definition sterling : json :=
  JObj [("post code", JStr "44289");
        ("country", JStr "United States");
        ("places",
         JArr [JObj [("place name", JStr "Sterling");
                     ("longitude", JStr "-81.8357");
                     ("state", JStr "Ohio");
                     ("state abbreviation", JStr "OH");
                     ("latitude", JStr "41.0117")]])].

(** A body with a place that has a name and no position. *)
Definition nameless : json :=
  JObj [("post code", JStr "88888");
        ("places", JArr [JObj [("place name", JStr "Nowhere")]])].

(** A service that knows 44289, sends a place without position for 88888,
    has an internal error on 50000, does not answer for 99999, sends a page
    that is not JSON for 77777 and answers 404 for everything else. *)
Definition sample_service (_ : list Event) (url : string) : FetchOutcome :=
  if String.eqb url (api_url "44289")
  then FetchResolved {| status := 200; body := Some sterling |}
  else if String.eqb url (api_url "88888")
  then FetchResolved {| status := 200; body := Some nameless |}
  else if String.eqb url (api_url "50000")
  then FetchResolved {| status := 500; body := None |}
  else if String.eqb url (api_url "99999")
  then FetchRejected
  else if String.eqb url (api_url "77777")
  then FetchResolved {| status := 200; body := None |}
  else FetchResolved {| status := 404; body := Some (JObj []) |}.

Definition sample_runtime : Runtime :=
  {| parseFloat := sample_parseFloat; service := sample_service |}.

(** A fresh process: nothing cached, no cache file, nothing done yet. *)
Definition fresh : World :=
  {| zipCache := ∅; cacheFile := None; trace := [] |}.

(** The object cached for 44289. *)
Definition sterling_coords : json :=
  object_of {| lat := 41.0117; lng := -81.8357;
               city := Some (JStr "Sterling"); state := Some (JStr "OH") |}.

(** The object cached for 10001. *)
Definition new_york_coords : json :=
  object_of {| lat := 40.7484; lng := -73.9967;
               city := Some (JStr "New York City");
               state := Some (JStr "NY") |}.

(** A process that has 44289, 10001 and the invalid 00000 in its cache. *)
Definition warm : World :=
  {| zipCache :=
       <["44289":=sterling_coords]>
         (<["10001":=new_york_coords]> (<["00000":=JNull]> ∅));
     cacheFile := None;
     trace := [] |}.

(** Twelve rows of the spreadsheet with ten different zip codes, three of
    which are in the cache of [warm]. *)
Definition twelve_rows : list CSVRow :=
  [ {| ZipCode := "44289" |}; {| ZipCode := "44256-1234" |};
    {| ZipCode := "10001" |}; {| ZipCode := "90210" |};
    {| ZipCode := "33139" |}; {| ZipCode := "60601" |};
    {| ZipCode := "00000" |}; {| ZipCode := "99999" |};
    {| ZipCode := "" |}; {| ZipCode := "44289" |};
    {| ZipCode := "12345" |}; {| ZipCode := "50000" |} ].

(** A process whose cache has an entry under [__proto__], as a cache file
    written by hand can give it. *)
Definition with_proto_key : World :=
  {| zipCache := <["__proto__":=JNull]> ∅; cacheFile := None; trace := [] |}.

(** A process whose cache has a place on the equator, its latitude being
    the negative zero that [parseFloat] returns for [-0.0]. *)
Definition on_the_equator : World :=
  {| zipCache :=
       <["00001":=object_of {| lat := neg_zero; lng := 10;
                               city := None; state := None |}]> ∅;
     cacheFile := None;
     trace := [] |}.

End Accurate.

(** ** [scripts/import-to-ray-test.ts] *)

Module Approximate.

(** [{ lat: number; lng: number }]. *)
Record LatLng : Type := {
  lat : float;
  lng : float
}.

(** [ZIP_RANGES], in the order of the object literal (none of its keys is
    an array index, so [Object.entries] keeps that order). *)
Definition ZIP_RANGES : list (string * LatLng) := [
  (* Northeast *)
  ("010-027", {| lat := 42.0; lng := -71.0 |});
  ("028-029", {| lat := 41.8; lng := -71.4 |});
  ("030-038", {| lat := 43.0; lng := -71.5 |});
  ("039-049", {| lat := 44.5; lng := -69.0 |});
  ("050-059", {| lat := 44.0; lng := -72.7 |});
  ("060-069", {| lat := 41.6; lng := -72.7 |});
  ("070-089", {| lat := 40.7; lng := -74.2 |});
  ("100-149", {| lat := 40.7; lng := -74.0 |});
  ("150-196", {| lat := 39.9; lng := -75.2 |});
  ("197-199", {| lat := 39.3; lng := -76.6 |});
  (* Southeast *)
  ("200-205", {| lat := 38.9; lng := -77.0 |});
  ("220-246", {| lat := 37.5; lng := -77.5 |});
  ("247-268", {| lat := 35.8; lng := -78.6 |});
  ("270-289", {| lat := 33.7; lng := -84.4 |});
  ("290-299", {| lat := 33.5; lng := -86.8 |});
  ("300-319", {| lat := 33.75; lng := -84.39 |});
  ("320-339", {| lat := 28.5; lng := -81.4 |});
  ("340-349", {| lat := 33.5; lng := -86.8 |});
  ("350-369", {| lat := 32.3; lng := -86.3 |});
  ("370-385", {| lat := 36.17; lng := -86.78 |});
  ("386-397", {| lat := 35.15; lng := -90.05 |});
  ("398-399", {| lat := 38.2; lng := -85.7 |});
  (* Midwest *)
  ("400-427", {| lat := 38.2; lng := -85.7 |});
  ("430-432", {| lat := 39.96; lng := -82.99 |});
  ("433-436", {| lat := 39.76; lng := -84.19 |});
  ("437-438", {| lat := 41.08; lng := -81.52 |});
  ("440-449", {| lat := 41.5; lng := -81.7 |});
  ("450-458", {| lat := 39.76; lng := -86.16 |});
  ("460-469", {| lat := 39.76; lng := -86.16 |});
  ("470-479", {| lat := 41.9; lng := -87.6 |});
  ("480-499", {| lat := 42.3; lng := -83.0 |});
  ("500-528", {| lat := 41.6; lng := -93.6 |});
  ("530-549", {| lat := 43.1; lng := -89.4 |});
  ("550-567", {| lat := 44.9; lng := -93.3 |});
  ("570-577", {| lat := 43.5; lng := -96.7 |});
  ("580-588", {| lat := 46.8; lng := -100.8 |});
  ("590-599", {| lat := 46.6; lng := -112.0 |});
  (* South Central *)
  ("600-629", {| lat := 39.8; lng := -89.6 |});
  ("630-658", {| lat := 38.6; lng := -90.2 |});
  ("660-679", {| lat := 39.1; lng := -94.6 |});
  ("680-699", {| lat := 41.3; lng := -96.0 |});
  ("700-714", {| lat := 29.95; lng := -90.07 |});
  ("715-729", {| lat := 30.45; lng := -91.15 |});
  ("730-749", {| lat := 35.5; lng := -97.5 |});
  ("750-759", {| lat := 32.78; lng := -96.8 |});
  ("760-769", {| lat := 32.75; lng := -97.33 |});
  ("770-779", {| lat := 29.76; lng := -95.37 |});
  ("780-789", {| lat := 29.42; lng := -98.49 |});
  ("790-799", {| lat := 31.76; lng := -106.49 |});
  ("800-816", {| lat := 39.7; lng := -104.9 |});
  ("820-831", {| lat := 42.9; lng := -106.3 |});
  ("832-838", {| lat := 43.5; lng := -112.0 |});
  ("840-847", {| lat := 40.8; lng := -111.9 |});
  (* Southwest / West *)
  ("850-865", {| lat := 33.45; lng := -112.07 |});
  ("870-884", {| lat := 35.08; lng := -106.65 |});
  ("885-895", {| lat := 36.17; lng := -115.14 |});
  ("900-918", {| lat := 34.05; lng := -118.24 |});
  ("919-921", {| lat := 32.72; lng := -117.16 |});
  ("922-928", {| lat := 33.45; lng := -117.0 |});
  ("930-935", {| lat := 35.37; lng := -119.02 |});
  ("936-966", {| lat := 37.77; lng := -122.42 |});
  ("967-968", {| lat := 21.31; lng := -157.86 |});
  ("970-979", {| lat := 45.52; lng := -122.68 |});
  ("980-994", {| lat := 47.61; lng := -122.33 |});
  ("995-999", {| lat := 61.22; lng := -149.9 |})
]%float.

(** StrWhiteSpaceChar, among the ASCII characters. *)
Definition is_white_space (c : Ascii.ascii) : bool :=
  bool_decide (Ascii.nat_of_ascii c ∈ [9; 10; 11; 12; 13; 32]).

Fixpoint skip_white_space (s : string) : string :=
  match s with
  | String c rest => if is_white_space c then skip_white_space rest else s
  | EmptyString => s
  end.

(** The value of a character as a digit in the given radix. *)
Definition digit_value (radix : Z) (c : Ascii.ascii) : option Z :=
  let n := Z.of_nat (Ascii.nat_of_ascii c) in
  let d :=
    if bool_decide (48 ≤ n ≤ 57)%Z then Some (n - 48)%Z
    else if bool_decide (97 ≤ n ≤ 122)%Z then Some (n - 87)%Z
    else if bool_decide (65 ≤ n ≤ 90)%Z then Some (n - 55)%Z
    else None in
  d ≫= λ d, if bool_decide (d < radix)%Z then Some d else None.

(** The number denoted by the longest prefix of digits; [acc] is the value
    of the digits read so far, [None] when there are none. *)
Fixpoint leading_digits (radix : Z) (acc : option Z) (s : string)
  : option Z :=
  match s with
  | String c rest =>
      match digit_value radix c with
      | Some d => leading_digits radix (Some (default 0 acc * radix + d)%Z) rest
      | None => acc
      end
  | EmptyString => acc
  end.

(** [parseInt(s)], without a radix argument; [None] is [NaN]. *)
Definition parseInt (s : string) : option Z :=
  let s := skip_white_space s in
  let '(sign, s) :=
    match s with
    | String "-"%char rest => ((-1)%Z, rest)
    | String "+"%char rest => (1%Z, rest)
    | _ => (1%Z, s)
    end in
  let '(radix, s) :=
    match s with
    | String "0"%char (String "x"%char rest) => (16%Z, rest)
    | String "0"%char (String "X"%char rest) => (16%Z, rest)
    | _ => (10%Z, s)
    end in
  (λ n, sign * n)%Z <$> leading_digits radix None s.

(** [s.split('-')]. *)
Fixpoint split_dash (current : string) (s : string) : list string :=
  match s with
  | EmptyString => [current]
  | String c rest =>
      if Ascii.eqb c "-"%char then current :: split_dash "" rest
      else split_dash (current +:+ String c "") rest
  end.

(** [Number(s)] for a string [s] of decimal digits, which is what the keys
    of the table are made of; [None] is [NaN], the result taken for every
    other string. *)
Definition Number (s : string) : option Z :=
  match s with
  | EmptyString => Some 0%Z
  | _ =>
      if forallb (λ c, bool_decide (48 ≤ Ascii.nat_of_ascii c ≤ 57))
                 (String.list_ascii_of_string s)
      then leading_digits 10 None s
      else None
  end.

(** [const [start, end] = range.split('-').map(Number)]: the first two
    elements, [None] where one is missing or [NaN]. *)
Definition bounds (range : string) : option Z * option Z :=
  let parts := Number <$> split_dash "" range in
  (mjoin (parts !! 0%nat), mjoin (parts !! 1%nat)).

(** [prefix >= start && prefix <= end]; a comparison with [NaN] or
    [undefined] is false. *)
Definition within (prefix : Z) (range : string) : bool :=
  match bounds range with
  | (Some start, Some end_) =>
      bool_decide (start ≤ prefix)%Z && bool_decide (prefix ≤ end_)%Z
  | _ => false
  end.

(** [getApproximateLocation]. *)
Definition getApproximateLocation (zipCode : string) : option LatLng :=
  if bool_decide (String.length zipCode < 3) then None
  else
    match parseInt (String.substring 0 3 zipCode) with
    | None => None
    | Some prefix =>
        snd <$> List.find (λ entry, within prefix entry.1) ZIP_RANGES
    end.

(** The range [r1] lies wholly before the range [r2]: both are proper
    ranges, and [r1] ends before [r2] starts. *)
Definition range_before (r1 r2 : string) : bool :=
  match bounds r1, bounds r2 with
  | (Some start1, Some end1), (Some start2, Some end2) =>
      bool_decide (start1 ≤ end1)%Z && bool_decide (end1 < start2)%Z
      && bool_decide (start2 ≤ end2)%Z
  | _, _ => false
  end.

Definition entry_before (e1 e2 : string * LatLng) : Prop :=
  range_before e1.1 e2.1 = true.

(** The character of a decimal digit. *)
Definition digit (d : nat) : Ascii.ascii := Ascii.ascii_of_nat (48 + d).

End Approximate.

(** ** The geospatial performance script ([runTests]) *)

Module GeoTest.
#[local] Open Scope R_scope.

(** A [geography::Point(lat, lng, 4326)]. *)
Record Geography : Type := {
  Lat : R;
  Long : R
}.

(** A row of the table, with the columns the three [WHERE] clauses read;
    [None] is SQL's [NULL]. *)
Record Row : Type := {
  PersonID : Z;
  ZipCode : option string;
  GeoLocation : option Geography
}.

(** The two functions of the database engine used by the queries:
    [p.STDistance(q)], in metres, and [p.STIntersects(polygon) = 1], the
    polygon being given by its ring of [(longitude, latitude)] pairs. *)
Record Engine : Type := {
  STDistance : Geography → Geography → R;
  STIntersects : Geography → list (R * R) → bool
}.

Definition Rle_bool (x y : R) : bool :=
  if Rle_dec x y then true else false.

(** [const radiusMeters = RADIUS_MILES * 1609.344]. *)
Definition radiusMeters (RADIUS_MILES : R) : R := RADIUS_MILES * 1609.344.

(** What the server answers to a statement: the rows, or an error, on
    which the promise of [query] is rejected. *)
Inductive QueryOutcome : Type :=
| Recordset (rows : list Row)
| RequestError.

(** The statements of the script, as far as their result depends on them.
    Each selects columns of the table, none of them inside an aggregate
    function, [FROM] the table, has a [WHERE] clause, no [GROUP BY] clause
    and, the third, a [HAVING] clause whose condition reads a column.
    ([ORDER BY] arranges the rows and does not change which are
    returned.) *)
Record Select : Type := {
  WHERE : Row → bool;
  HAVING : option (Row → bool)
}.

(** [await pool.request().query(...)] on Azure SQL.  A statement without
    [HAVING] returns the rows that satisfy [WHERE].  A statement with a
    [HAVING] clause and no [GROUP BY] clause is taken as a query over one
    implicit group; Transact-SQL refuses the columns that such a query
    names outside aggregate functions, in the select list (Msg 8120) and in
    the [HAVING] clause (Msg 8121): the statement is not run, and its
    condition is never evaluated. *)
Definition query (st : Select) (table : list Row) : QueryOutcome :=
  match HAVING st with
  | Some _ => RequestError
  | None => Recordset (List.filter (WHERE st) table)
  end.

(** The statement of TEST 1:
    [WHERE GeoLocation IS NOT NULL
       AND GeoLocation.STDistance(@center) <= radiusMeters]. *)
Definition TEST1 (db : Engine) (centerLat centerLng RADIUS_MILES : R)
  : Select :=
  let center := {| Lat := centerLat; Long := centerLng |} in
  {| WHERE row :=
       match GeoLocation row with
       | None => false
       | Some g => Rle_bool (STDistance db g center) (radiusMeters RADIUS_MILES)
       end;
     HAVING := None |}.

(** [result1]. *)
Definition result1 (db : Engine) (centerLat centerLng RADIUS_MILES : R)
    (table : list Row) : QueryOutcome :=
  query (TEST1 db centerLat centerLng RADIUS_MILES) table.

(** [latDelta] and [lngDelta] of TEST 2. *)
Definition latDelta (RADIUS_MILES : R) : R := RADIUS_MILES / 69.0.

Definition lngDelta (centerLat RADIUS_MILES : R) : R :=
  RADIUS_MILES / (69.0 * cos (centerLat * PI / 180)).

(** The ring of [@bbox]. *)
Definition bbox (centerLat centerLng RADIUS_MILES : R) : list (R * R) :=
  let dlat := latDelta RADIUS_MILES in
  let dlng := lngDelta centerLat RADIUS_MILES in
  [ (centerLng - dlng, centerLat - dlat);
    (centerLng + dlng, centerLat - dlat);
    (centerLng + dlng, centerLat + dlat);
    (centerLng - dlng, centerLat + dlat);
    (centerLng - dlng, centerLat - dlat) ].

(** The statement of TEST 2:
    [WHERE GeoLocation IS NOT NULL AND GeoLocation.STIntersects(@bbox) = 1
       AND GeoLocation.STDistance(@center) <= radiusMeters]. *)
Definition TEST2 (db : Engine) (centerLat centerLng RADIUS_MILES : R)
  : Select :=
  let center := {| Lat := centerLat; Long := centerLng |} in
  {| WHERE row :=
       match GeoLocation row with
       | None => false
       | Some g =>
           STIntersects db g (bbox centerLat centerLng RADIUS_MILES)
           && Rle_bool (STDistance db g center) (radiusMeters RADIUS_MILES)
       end;
     HAVING := None |}.

(** [result2]. *)
Definition result2 (db : Engine)
    (centerLat centerLng RADIUS_MILES : R) (table : list Row)
  : QueryOutcome :=
  query (TEST2 db centerLat centerLng RADIUS_MILES) table.

(** [LEFT(ZipCode, 3) BETWEEN lo AND hi], strings being compared character
    by character. *)
Definition LEFT3_BETWEEN (zip lo hi : string) : bool :=
  let p := String.substring 0 3 zip in
  String.leb lo p && String.leb p hi.

(** The two [CASE] expressions of TEST 3. *)
Definition case_latitude (zip : string) : R :=
  if LEFT3_BETWEEN zip "440" "449" then 41.5
  else if LEFT3_BETWEEN zip "430" "432" then 39.96
  else if LEFT3_BETWEEN zip "450" "458" then 39.76
  else 40.0.

Definition case_longitude (zip : string) : R :=
  if LEFT3_BETWEEN zip "440" "449" then -81.7
  else if LEFT3_BETWEEN zip "430" "432" then -82.99
  else if LEFT3_BETWEEN zip "450" "458" then -86.16
  else -82.0.

Definition RADIANS (degrees : R) : R := degrees * PI / 180.

(** The expression selected [as distance_miles] in TEST 3, between the
    centre [a] and the point [b]:
    [3959 * ACOS(COS(RADIANS(a.lat)) * COS(RADIANS(b.lat))
                 * COS(RADIANS(b.lng) - RADIANS(a.lng))
                 + SIN(RADIANS(a.lat)) * SIN(RADIANS(b.lat)))]. *)
Definition distance_miles (a b : Geography) : R :=
  3959 * acos (cos (RADIANS (Lat a)) * cos (RADIANS (Lat b))
               * cos (RADIANS (Long b) - RADIANS (Long a))
               + sin (RADIANS (Lat a)) * sin (RADIANS (Lat b))).

(** The point TEST 3 computes with for a row: it depends on the first
    three characters of the zip code only. *)
Definition case_point (zip : string) : Geography :=
  {| Lat := case_latitude zip; Long := case_longitude zip |}.

(** The statement of TEST 3: [WHERE ZipCode IS NOT NULL] and
    [HAVING 3959 * ACOS(...) <= RADIUS_MILES], the expression being the one
    selected [as distance_miles].  The condition is kept as the script
    writes it; the server never evaluates it. *)
Definition TEST3 (centerLat centerLng RADIUS_MILES : R) : Select :=
  let center := {| Lat := centerLat; Long := centerLng |} in
  {| WHERE row :=
       match ZipCode row with
       | None => false
       | Some _ => true
       end;
     HAVING :=
       Some (λ row,
               match ZipCode row with
               | None => false
               | Some zip =>
                   Rle_bool (distance_miles center (case_point zip))
                            RADIUS_MILES
               end) |}.

(** [result3]. *)
Definition result3 (centerLat centerLng RADIUS_MILES : R)
    (table : list Row) : QueryOutcome :=
  query (TEST3 centerLat centerLng RADIUS_MILES) table.

(** How [runTests] ends: with the three counts it prints and the summary,
    or rejected by the statement that the server refused, after the given
    number of tests (the rejection goes to [console.error], and neither the
    summary nor [pool.close()] is reached). *)
Inductive Run : Type :=
| Complete (n1 n2 n3 : nat)
| Rejected (tests_done : nat).

(** The three tests of [runTests], one after the other, for a centre and a
    radius (the script has them fixed: 41.01, -81.84 and 50). *)
Definition runTests (db : Engine) (centerLat centerLng RADIUS_MILES : R)
    (table : list Row) : Run :=
  match result1 db centerLat centerLng RADIUS_MILES table with
  | RequestError => Rejected 0
  | Recordset r1 =>
      match result2 db centerLat centerLng RADIUS_MILES table with
      | RequestError => Rejected 1
      | Recordset r2 =>
          match result3 centerLat centerLng RADIUS_MILES table with
          | RequestError => Rejected 2
          | Recordset r3 => Complete (length r1) (length r2) (length r3)
          end
      end
  end.

(** The haversine formula, as textbooks state it, with the same radius. *)
Definition haversine (a b : Geography) : R :=
  let dlat := RADIANS (Lat b) - RADIANS (Lat a) in
  let dlng := RADIANS (Long b) - RADIANS (Long a) in
  2 * 3959 * asin (sqrt ((sin (dlat / 2))² +
                         cos (RADIANS (Lat a)) * cos (RADIANS (Lat b))
                         * (sin (dlng / 2))²)).

(** The point of the unit sphere at a latitude and longitude. *)
Definition unit_vector (p : Geography) : R * R * R :=
  (cos (RADIANS (Lat p)) * cos (RADIANS (Long p)),
   cos (RADIANS (Lat p)) * sin (RADIANS (Long p)),
   sin (RADIANS (Lat p))).

Definition dot (u v : R * R * R) : R :=
  u.1.1 * v.1.1 + u.1.2 * v.1.2 + u.2 * v.2.

(** The angle, in radians, between the directions of two points. *)
Definition angular_separation (a b : Geography) : R :=
  acos (dot (unit_vector a) (unit_vector b)).

(** *** A sample engine and table, for the examples *)

(** An engine that measures on a flat map, 111195 metres to the degree,
    and finds every point in every polygon. *)
Definition flat_engine : Engine :=
  {| STDistance p q :=
       111195 * sqrt ((Lat p - Lat q)² + (Long p - Long q)²);
     STIntersects _ _ := true |}.

(** A profile right at the centre of the script's search. *)
Definition sterling_row : Row :=
  {| PersonID := 2; ZipCode := Some "44289";
     GeoLocation := Some {| Lat := 41.01; Long := -81.84 |} |}.

End GeoTest.

(** ** The radius-query planner *)

Module Planner.

(** Modelled from the spec: the error taxonomy of section 7, as far as the
    planner produces it.  The planner itself ([src/lib/geospatial] and
    [src/lib/azure-spatial]) is not among the source files; only a script
    that calls it is. *)
Inductive FailureReason : Type :=
| UnresolvableCenter
| SpatialQueryFailure.

(** Modelled from the spec: a search hit, [{ recordId, distanceMiles }]. *)
Record Hit : Type := {
  recordId : Z;
  distanceMiles : float
}.

(** Modelled from the spec: the result of [findWithinRadius],
    [SearchResult | QueryFailure]. *)
Inductive Outcome : Type :=
| SearchResult (hits : list Hit)
| QueryFailure (reason : FailureReason).

(** Modelled from the spec: the three resolution stages of section 4.1,
    each a partial map from zip codes to coordinates ([None] is [null]). *)
Record Stages : Type := {
  cache_stage : string → option Approximate.LatLng;
  remote_stage : string → option Approximate.LatLng;
  fallback_stage : string → option Approximate.LatLng
}.

(** Modelled from the spec: [resolve] tries the stages in order and stops
    at the first that yields a coordinate. *)
Definition resolve (st : Stages) (zip : string) : option Approximate.LatLng :=
  match cache_stage st zip with
  | Some c => Some c
  | None =>
      match remote_stage st zip with
      | Some c => Some c
      | None => fallback_stage st zip
      end
  end.

(** Modelled from the spec: [findWithinRadius(centerZip, radiusMiles,
    target)] of section 4.3.  [search] stands for the chosen strategy run
    against the target; it answers [None] when the data source fails. *)
Definition findWithinRadius {Target : Type} (st : Stages)
    (search : Approximate.LatLng → float → Target → option (list Hit))
    (centerZip : string) (radiusMiles : float) (target : Target) : Outcome :=
  match resolve st centerZip with
  | None => QueryFailure UnresolvableCenter
  | Some center =>
      match search center radiusMiles target with
      | Some hits => SearchResult hits
      | None => QueryFailure SpatialQueryFailure
      end
  end.

(** Modelled from the spec: a cached or fetched value read as a
    coordinate; [null], and anything without numeric [lat] and [lng], is no
    coordinate. *)
Definition as_LatLng (v : Js.json) : option Approximate.LatLng :=
  match Js.get v "lat", Js.get v "lng" with
  | Some (Js.JNum a), Some (Js.JNum b) =>
      Some {| Approximate.lat := a; Approximate.lng := b |}
  | _, _ => None
  end.

(** Modelled from the spec: the three stages as the two import scripts
    provide them, in a given world: the zip cache, [getZipCoordinates] and
    [getApproximateLocation]. *)
Definition stages_of (rt : Accurate.Runtime) (w : Accurate.World) : Stages :=
  {| cache_stage zip :=
       Accurate.zipCache w !! Js.substring0 5 zip ≫= as_LatLng;
     remote_stage zip := as_LatLng (Accurate.getZipCoordinates rt zip w).1;
     fallback_stage := Approximate.getApproximateLocation |}.

End Planner.

(** ** [parseDate], which the three import scripts share *)

Module Dates.
Import Approximate.

(** [\d]. *)
Definition is_digit (c : Ascii.ascii) : bool :=
  bool_decide (48 ≤ Ascii.nat_of_ascii c ≤ 57).

(** [\d*]: a string of digits. *)
Definition all_digits (s : string) : bool :=
  forallb is_digit (String.list_ascii_of_string s).

(** The digits at the head of a string, [max] of them at most, and what
    follows them. *)
Fixpoint take_digits (max : nat) (s : string) : string * string :=
  match max, s with
  | S max', String c rest =>
      if is_digit c
      then let '(ds, rest') := take_digits max' rest in (String c ds, rest')
      else (EmptyString, s)
  | _, _ => (EmptyString, s)
  end.

(** What follows a group that could have taken more digits: no digit. *)
Definition no_digit_next (s : string) : Prop :=
  match s with
  | String c _ => is_digit c = false
  | EmptyString => True
  end.

(** [(\d{min,max})] where no digit may follow: the group and the rest.
    (In both patterns the group is followed by a character that is no
    digit, or by the end, so that taking fewer digits than there are never
    helps the match.) *)
Definition digits (min max : nat) (s : string) : option (string * string) :=
  let '(ds, rest) := take_digits max s in
  if decide (min ≤ String.length ds) then Some (ds, rest) else None.

(** One given character. *)
Definition literal (c : Ascii.ascii) (s : string) : option string :=
  match s with
  | String c' rest => if Ascii.eqb c' c then Some rest else None
  | EmptyString => None
  end.

(** [dateStr.match(/^(\d{1,2})\/(\d{1,2})\/(\d{4})$/)]: the groups
    month, day and year. *)
Definition match_mdy (s : string) : option (string * string * string) :=
  '(month, s) ← digits 1 2 s;
  s ← literal "/" s;
  '(day, s) ← digits 1 2 s;
  s ← literal "/" s;
  '(year, s) ← digits 4 4 s;
  if String.eqb s "" then Some (month, day, year) else None.

(** [dateStr.match(/^(\d{4})-(\d{2})-(\d{2})$/)]: the groups year, month
    and day. *)
Definition match_ymd (s : string) : option (string * string * string) :=
  '(year, s) ← digits 4 4 s;
  s ← literal "-" s;
  '(month, s) ← digits 2 2 s;
  s ← literal "-" s;
  '(day, s) ← digits 2 2 s;
  if String.eqb s "" then Some (year, month, day) else None.

(** A [Date], by the way it was made: [new Date(year, monthIndex, day)],
    with the three numbers as given ([None] is [NaN]), or
    [new Date(dateStr)] with a time value that is a number. *)
Inductive Date : Type :=
| Date_of (year monthIndex day : option Z)
| Date_at (time : Z).

(** [dateStr.trim() === ''], among the ASCII characters. *)
Definition blank (s : string) : bool :=
  forallb is_white_space (String.list_ascii_of_string s).

(** [parseDate].  [Date_parse] is the time value of [new Date(dateStr)],
    [None] when it is [NaN]. *)
Definition parseDate (Date_parse : string → option Z) (dateStr : string)
  : option Date :=
  if String.eqb dateStr "" || blank dateStr then None
  else
    match match_mdy dateStr with
    | Some (month, day, year) =>
        Some (Date_of (parseInt year)
                      ((λ m, m - 1)%Z <$> parseInt month)
                      (parseInt day))
    | None =>
        match match_ymd dateStr with
        | Some (year, month, day) =>
            Some (Date_of (parseInt year)
                          ((λ m, m - 1)%Z <$> parseInt month)
                          (parseInt day))
        | None => Date_at <$> Date_parse dateStr
        end
    end.

End Dates.

(** ** The import loops of the two scripts *)

Module Rows.
Import Js Accurate.

Definition BATCH_SIZE : nat := 100.

(** [records.slice(i, j)]. *)
Definition slice {A : Type} (i j : nat) (l : list A) : list A :=
  take (j - i) (drop i l).

(** The batches of the loop
    [for (let i = 0; i < records.length; i += BATCH_SIZE)], from the index
    [i] on; [fuel] bounds the number of rounds. *)
Fixpoint batches_from {A : Type} (fuel i : nat) (records : list A)
  : list (list A) :=
  match fuel with
  | 0 => []
  | S fuel' =>
      if decide (i < length records)
      then slice i (i + BATCH_SIZE) records
           :: batches_from fuel' (i + BATCH_SIZE) records
      else []
  end.

(** The batches of the loop; it makes a round for each hundred records
    begun, so that one round per record is enough. *)
Definition batches {A : Type} (records : list A) : list (list A) :=
  batches_from (length records) 0 records.

(** The last argument of the [INSERT]: ['NULL'], or
    [geography::Point(lat, lng, 4326)] for the two values interpolated. *)
Inductive GeoQuery : Type :=
| GeoNULL
| GeoPoint (lat lng : option json).

(** [row.ZipCode?.toString().substring(0, 10) || null]. *)
Definition zipCode_of (row : CSVRow) : option string :=
  let z := substring0 10 (ZipCode row) in
  if String.eqb z "" then None else Some z.

(** [zipCode ? zipCode.substring(0, 5) : null]. *)
Definition zip5_of (zipCode : option string) : option string :=
  substring0 5 <$> zipCode.

(** [zip5 ? zipCache.get(zip5) : null]; [None] is [undefined]. *)
Definition coords_of (cache : gmap string json) (zip5 : option string)
  : option json :=
  match zip5 with
  | Some z => if String.eqb z "" then Some JNull else cache !! z
  | None => Some JNull
  end.

(** The geography of a row in [import-to-ray-test-accurate.ts]. *)
Definition geoQuery_accurate (cache : gmap string json) (row : CSVRow)
  : GeoQuery :=
  match coords_of cache (zip5_of (zipCode_of row)) with
  | Some coords =>
      if truthy coords then GeoPoint (get coords "lat") (get coords "lng")
      else GeoNULL
  | None => GeoNULL
  end.

(** The geography of a row in [import-to-ray-test.ts]:
    [zipCode ? getApproximateLocation(zipCode) : null]. *)
Definition geoQuery_approximate (row : CSVRow) : GeoQuery :=
  match zipCode_of row ≫= Approximate.getApproximateLocation with
  | Some coords =>
      GeoPoint (Some (JNum (Approximate.lat coords)))
               (Some (JNum (Approximate.lng coords)))
  | None => GeoNULL
  end.

(** What is sent to the database for a row, as far as the model has it. *)
Record Insert : Type := {
  row : CSVRow;
  zipCode : option string;
  geoQuery : GeoQuery
}.

(** The four counters of the loop. *)
Record Tally : Type := {
  inserted : nat;
  errors : nat;
  withGeo : nat;
  withoutGeo : nat
}.

(** The body of [for (const row of batch)].  [accepts] tells whether the
    database, holding the given rows, takes the insert or throws; the two
    geo counters are stepped before the insert is tried. *)
Definition import_row (geo : CSVRow → GeoQuery)
    (accepts : list Insert → Insert → bool)
    (st : list Insert * Tally) (r : CSVRow) : list Insert * Tally :=
  let '(table, t) := st in
  let q := geo r in
  let ins := {| row := r; zipCode := zipCode_of r; geoQuery := q |} in
  let '(g, ng) :=
    match q with
    | GeoPoint _ _ => (S (withGeo t), withoutGeo t)
    | GeoNULL => (withGeo t, S (withoutGeo t))
    end in
  if accepts table ins
  then (table ++ [ins],
        {| inserted := S (inserted t); errors := errors t;
           withGeo := g; withoutGeo := ng |})
  else (table,
        {| inserted := inserted t; errors := S (errors t);
           withGeo := g; withoutGeo := ng |}).

(** The two nested loops, on a table that holds [table] when they start
    ([import-to-ray-test-accurate.ts] has just cleared it; the script
    [import-to-ray-test.ts] has no [withoutGeo], which nothing else reads). *)
Definition import_rows (geo : CSVRow → GeoQuery)
    (accepts : list Insert → Insert → bool) (table : list Insert)
    (records : list CSVRow) : list Insert * Tally :=
  foldl (λ st batch, foldl (import_row geo accepts) st batch)
        (table,
         {| inserted := 0; errors := 0; withGeo := 0; withoutGeo := 0 |})
        (batches records).

(** The geography is a point, not ['NULL']. *)
Definition is_point (q : GeoQuery) : bool :=
  match q with
  | GeoPoint _ _ => true
  | GeoNULL => false
  end.

(** [GeoLocation IS NOT NULL]. *)
Definition has_geo (ins : Insert) : bool := is_point (geoQuery ins).

(** *** Sample surroundings, for the examples *)

(** A service that answers every request: with the place for 44289, with
    404 for the rest. *)
Definition reliable_service (_ : list Event) (url : string) : FetchOutcome :=
  if String.eqb url (api_url "44289")
  then FetchResolved {| status := 200; body := Some sterling |}
  else FetchResolved {| status := 404; body := Some (JObj []) |}.

Definition reliable_runtime : Runtime :=
  {| parseFloat := sample_parseFloat; service := reliable_service |}.

(** A database that refuses a zip code it already holds. *)
Definition distinct_zips (table : list Insert) (ins : Insert) : bool :=
  bool_decide (zipCode ins ∉ zipCode <$> table).

(** A [Date.parse] that knows no format. *)
Definition no_format (_ : string) : option Z := None.

End Rows.

(* ===================================================================== *)
(** * Part II: what the programs do                                       *)
(* ===================================================================== *)

(** ** The resolver [getZipCoordinates] *)

Section resolver.
Import Js Accurate.
Context (rt : Runtime).

(** A zip code of at most five characters is its own normal form. *)
Lemma substring0_short (n : nat) (s : string) :
  String.length s ≤ n → substring0 n s = s.
Proof.
  unfold substring0. revert n.
  induction s as [|c s IH]; intros [|n] Hlen; simpl in *; try done; try lia.
  f_equal. apply IH. lia.
Qed.

Lemma substring0_length (n : nat) (s : string) :
  String.length (substring0 n s) ≤ n.
Proof.
  unfold substring0. revert n.
  induction s as [|c s IH]; intros [|n]; simpl; try lia.
  specialize (IH n). lia.
Qed.

Lemma substring0_idemp (n : nat) (s : string) :
  substring0 n (substring0 n s) = substring0 n s.
Proof. apply substring0_short, substring0_length. Qed.

(** The cache-hit path. *)
Lemma getZipCoordinates_hit (zipCode : string) (w : World) (cached : json) :
  zipCache w !! substring0 5 zipCode = Some cached →
  getZipCoordinates rt zipCode w = (or_null cached, w).
Proof.
  intros Hc. unfold getZipCoordinates, mbind, Run_bind, zipCache_has.
  rewrite bool_decide_eq_true_2 by (rewrite Hc; eauto).
  unfold zipCache_get. by rewrite Hc.
Qed.

(** Case analysis on everything the miss path looks at: how the request
    ended, the status, the body and its first place. *)
Ltac by_outcome :=
  repeat match goal with
    | |- context [match service ?rt ?t ?u with _ => _ end] =>
        destruct (service rt t u) as [|?r]
    | |- context [if ok ?r then _ else _] => destruct (ok r)
    | |- context [match body ?r with _ => _ end] =>
        destruct (body r) as [[]|]
    | |- context [match first_place ?d with _ => _ end] =>
        destruct (first_place d)
    end.

(** The cache-miss path, by the outcome of the request. *)
Lemma getZipCoordinates_miss (zipCode : string) (w : World) :
  let zip5 := substring0 5 zipCode in
  zipCache w !! zip5 = None →
  getZipCoordinates rt zipCode w =
    match service rt (trace w ++ [Sleep 100]) (api_url zip5) with
    | FetchRejected => (JNull, requested zip5 w)
    | FetchResolved r =>
        if ok r then
          match body r with
          | None | Some JNull => (JNull, requested zip5 w)
          | Some data =>
              match first_place data with
              | Some place =>
                  let coords := object_of (coordinates_of_place rt place) in
                  (coords,
                   with_zipCache (<[zip5:=coords]> (zipCache w))
                     (requested zip5 w))
              | None =>
                  (JNull,
                   with_zipCache (<[zip5:=JNull]> (zipCache w))
                     (requested zip5 w))
              end
          end
        else
          (JNull,
           with_zipCache (<[zip5:=JNull]> (zipCache w)) (requested zip5 w))
    end.
Proof.
  intros zip5 Hc. unfold getZipCoordinates, mbind, Run_bind, zipCache_has.
  fold zip5. rewrite bool_decide_eq_false_2 by (rewrite Hc; by intros [? ?]).
  unfold sleep, fetch, requested, invalid_zip, zipCache_set, mbind, Run_bind,
    mret, Run_ret, with_trace, with_zipCache; simpl.
  rewrite <- app_assoc; simpl.
  by by_outcome.
Qed.

(** Whatever the outcome, a miss makes one request, after one delay. *)
Lemma getZipCoordinates_miss_trace (zipCode : string) (w : World) :
  let zip5 := substring0 5 zipCode in
  zipCache w !! zip5 = None →
  trace (getZipCoordinates rt zipCode w).2
  = trace w ++ [Sleep 100; Fetch (api_url zip5)].
Proof.
  intros zip5 Hc. rewrite getZipCoordinates_miss by done. fold zip5.
  by by_outcome.
Qed.

(** A miss changes the cache at the key of the zip code at most, and
    leaves the cache file alone. *)
Lemma getZipCoordinates_miss_frame (zipCode : string) (w : World) (k : string) :
  let zip5 := substring0 5 zipCode in
  zipCache w !! zip5 = None →
  k ≠ zip5 →
  zipCache (getZipCoordinates rt zipCode w).2 !! k = zipCache w !! k.
Proof.
  intros zip5 Hc Hk. rewrite getZipCoordinates_miss by done. fold zip5.
  by_outcome; simpl; try done; by rewrite lookup_insert_ne.
Qed.

(** C1.  A zip code whose first five characters are a key of the cache,
    whether the cached value is [null] or a coordinate object, is answered
    with that value, and the world stays as it was: nothing is added to the
    trace (no delay, no remote call) and the cache is not changed. *)
Theorem cached_zip_is_answered_from_cache
    (zipCode : string) (w : World) (cached : json) :
  zipCache w !! substring0 5 zipCode = Some cached →
  ZipCoordinates_or_null cached = true →
  getZipCoordinates rt zipCode w = (cached, w).
Proof.
  intros Hc Hty. rewrite (getZipCoordinates_hit _ _ _ Hc).
  by destruct cached.
Qed.

(** C2.  When the zip code is not cached and the service answers 404, the
    call stores [null] for it and returns [null].  When the request ends
    in the [catch] clause (it was rejected after a network failure or the
    five-second abort, or the body of an ok response is not JSON text or is
    the text [null]), the call returns [null], the cache and the cache file
    are as before, and the next call for the same zip code makes the
    request again. *)
Theorem not_found_is_cached_and_errors_are_retried
    (zipCode : string) (w : World) :
  let zip5 := substring0 5 zipCode in
  let outcome := service rt (trace w ++ [Sleep 100]) (api_url zip5) in
  let result := (getZipCoordinates rt zipCode w).1 in
  let w' := (getZipCoordinates rt zipCode w).2 in
  zipCache w !! zip5 = None →
  (∀ r, outcome = FetchResolved r → status r = 404 →
     result = JNull ∧ zipCache w' = <[zip5:=JNull]> (zipCache w))
  ∧ (caught outcome = true →
     result = JNull
     ∧ zipCache w' = zipCache w
     ∧ cacheFile w' = cacheFile w
     ∧ trace (getZipCoordinates rt zipCode w').2
       = trace w' ++ [Sleep 100; Fetch (api_url zip5)]).
Proof.
  intros zip5 outcome result w' Hc.
  assert (Hrun := getZipCoordinates_miss zipCode w Hc).
  fold zip5 in Hrun. fold outcome in Hrun.
  subst result w'. split.
  - intros r Hr H404. rewrite Hrun, Hr.
    assert (ok r = false) as ->; [|done].
    unfold ok. rewrite H404. by apply bool_decide_eq_false_2; lia.
  - intros Hcaught.
    assert (getZipCoordinates rt zipCode w = (JNull, requested zip5 w))
      as Hrun'.
    { rewrite Hrun. destruct outcome as [|r]; [done|]. simpl in Hcaught.
      destruct (ok r); [|done]. by destruct (body r) as [[]|]. }
    rewrite Hrun'. simpl. repeat split.
    by apply getZipCoordinates_miss_trace.
Qed.

(** C10.  When the zip code is not cached and the service answers with any
    status outside 200-299 (a 500 as well as a 404), the call stores
    [null] for the zip code and returns [null], and a later call that sees
    this cache returns [null] at once: it adds nothing to the trace. *)
Theorem any_failure_status_is_cached_as_invalid
    (zipCode : string) (w : World) (r : Response) :
  let zip5 := substring0 5 zipCode in
  let result := (getZipCoordinates rt zipCode w).1 in
  let w' := (getZipCoordinates rt zipCode w).2 in
  zipCache w !! zip5 = None →
  service rt (trace w ++ [Sleep 100]) (api_url zip5) = FetchResolved r →
  ok r = false →
  result = JNull
  ∧ zipCache w' = <[zip5:=JNull]> (zipCache w)
  ∧ getZipCoordinates rt zipCode w' = (JNull, w').
Proof.
  intros zip5 result w' Hc Hr Hok. subst result w'.
  rewrite (getZipCoordinates_miss zipCode w Hc). fold zip5.
  rewrite Hr, Hok. simpl. repeat split.
  apply (getZipCoordinates_hit zipCode _ JNull). simpl.
  by rewrite lookup_insert_eq.
Qed.

End resolver.

Section resolver_examples.
Import Js Accurate.

(** A zip code the service knows is cached with its coordinates. *)
Example known_zip_is_fetched_and_cached :
  (getZipCoordinates sample_runtime "44289" fresh).1 = sterling_coords
  ∧ zipCache (getZipCoordinates sample_runtime "44289" fresh).2 !! "44289"
    = Some sterling_coords.
Proof. split; by vm_compute. Qed.

(** An ok response whose body is JSON without places is no error for the
    code: the zip code is cached as invalid. *)
Example body_without_places_is_cached_as_invalid :
  let rt := {| parseFloat := sample_parseFloat;
               service _ _ :=
                 FetchResolved {| status := 200; body := Some (JObj []) |} |} in
  (getZipCoordinates rt "44289" fresh).1 = JNull
  ∧ zipCache (getZipCoordinates rt "44289" fresh).2 !! "44289" = Some JNull.
Proof. split; by vm_compute. Qed.

(** A missing or unreadable cache file leaves the cache as it is. *)
Example unreadable_cache_file_is_ignored :
  loadZipCache warm = (tt, warm)
  ∧ loadZipCache (with_cacheFile (Some NotJson) warm)
    = (tt, with_cacheFile (Some NotJson) warm)
  ∧ loadZipCache (with_cacheFile (Some (Json JNull)) warm)
    = (tt, with_cacheFile (Some (Json JNull)) warm).
Proof. repeat split. Qed.

Lemma cached_zip_is_answered_from_cache_witness :
  getZipCoordinates sample_runtime "44289-1234" warm = (sterling_coords, warm)
  ∧ getZipCoordinates sample_runtime "00000" warm = (JNull, warm).
Proof.
  split.
  - apply (cached_zip_is_answered_from_cache
             sample_runtime "44289-1234" warm sterling_coords);
      reflexivity.
  - apply (cached_zip_is_answered_from_cache
             sample_runtime "00000" warm JNull);
      reflexivity.
Defined.

Lemma not_found_is_cached_and_errors_are_retried_witness :
  zipCache (getZipCoordinates sample_runtime "12345" fresh).2 !! "12345"
    = Some JNull
  ∧ zipCache (getZipCoordinates sample_runtime "99999" fresh).2 !! "99999"
    = None
  ∧ zipCache (getZipCoordinates sample_runtime "77777" fresh).2 !! "77777"
    = None.
Proof.
  split; [|split].
  - destruct (not_found_is_cached_and_errors_are_retried
                sample_runtime "12345" fresh) as [H404 _]; [reflexivity|].
    destruct (H404 {| status := 404; body := Some (JObj []) |})
      as [_ ->]; reflexivity.
  - destruct (not_found_is_cached_and_errors_are_retried
                sample_runtime "99999" fresh) as [_ Hcaught]; [reflexivity|].
    destruct Hcaught as (_ & -> & _); reflexivity.
  - destruct (not_found_is_cached_and_errors_are_retried
                sample_runtime "77777" fresh) as [_ Hcaught]; [reflexivity|].
    destruct Hcaught as (_ & -> & _); reflexivity.
Defined.

Lemma any_failure_status_is_cached_as_invalid_witness :
  (getZipCoordinates sample_runtime "50000" fresh).1 = JNull
  ∧ zipCache (getZipCoordinates sample_runtime "50000" fresh).2
    = <["50000":=JNull]> ∅.
Proof.
  destruct (any_failure_status_is_cached_as_invalid
              sample_runtime "50000" fresh {| status := 500; body := None |})
    as (H1 & H2 & _); try reflexivity.
  split; [exact H1 | exact H2].
Defined.

End resolver_examples.

(** ** Short zip codes *)

Section short_zip_codes.
Import Js Accurate.

(** C3, as the code has it.  [getApproximateLocation] answers [null] at
    once for a zip code of fewer than three characters.
    [getZipCoordinates] has no such check: when a short zip code is not in
    the cache it waits and makes the remote request like for any other. *)
Theorem short_zip_code_is_rejected_by_the_prefix_lookup_only
    (zipCode : string) :
  String.length zipCode < 3 →
  Approximate.getApproximateLocation zipCode = None
  ∧ ∀ (rt : Runtime) (w : World),
      zipCache w !! zipCode = None →
      trace (getZipCoordinates rt zipCode w).2
      = trace w ++ [Sleep 100; Fetch (api_url zipCode)].
Proof.
  intros Hlen. split.
  - unfold Approximate.getApproximateLocation.
    by rewrite bool_decide_eq_true_2.
  - intros rt w Hc.
    assert (substring0 5 zipCode = zipCode) as Hz
      by (apply substring0_short; lia).
    rewrite <- Hz in Hc.
    rewrite (getZipCoordinates_miss_trace rt zipCode w Hc). by rewrite Hz.
Qed.

Lemma short_zip_code_is_rejected_by_the_prefix_lookup_only_witness :
  Approximate.getApproximateLocation "12" = None
  ∧ trace (getZipCoordinates sample_runtime "12" fresh).2
    = [Sleep 100; Fetch (api_url "12")].
Proof.
  destruct (short_zip_code_is_rejected_by_the_prefix_lookup_only "12")
    as [Happrox Hremote]; [simpl; lia|].
  split; [exact Happrox|].
  apply (Hremote sample_runtime fresh). reflexivity.
Defined.

(** C3 as stated fails for [getZipCoordinates]: for the two-character zip
    code [12] and an empty cache it makes a remote request and writes the
    cache.  It also fails for [getApproximateLocation] when digits are
    counted instead of characters: [12a] has two digits, and is resolved
    to the first range of the table through [parseInt]. *)
Lemma short_zip_code_reaches_the_network :
  (String.length "12" < 3
   ∧ remote_calls (trace (getZipCoordinates sample_runtime "12" fresh).2)
     = ["https://api.zippopotam.us/us/12"]
   ∧ zipCache (getZipCoordinates sample_runtime "12" fresh).2 !! "12"
     = Some JNull
   ∧ zipCache fresh !! "12" = None)
  ∧ Approximate.getApproximateLocation "12a"
    = Some {| Approximate.lat := 42.0; Approximate.lng := -71.0 |}.
Proof.
  split; [|by vm_compute].
  split; [simpl; lia|]. split; [by vm_compute|]. split; by vm_compute.
Qed.

End short_zip_codes.

(** ** The pre-fetch loop of [importData] *)

Section batch.
Import Js Accurate.
Context (rt : Runtime).

Lemma Set_add_NoDup (s : list string) (z : string) :
  NoDup s → NoDup (Set_add s z).
Proof.
  intros Hs. unfold Set_add. case_decide; [done|].
  apply NoDup_app. repeat split; [done| |apply NoDup_singleton].
  intros x Hx ->%list_elem_of_singleton. done.
Qed.

Lemma Set_add_Forall (P : string → Prop) (s : list string) (z : string) :
  Forall P s → P z → Forall P (Set_add s z).
Proof.
  intros Hs Hz. unfold Set_add. case_decide; [done|].
  apply Forall_app. split; [done|]. by constructor.
Qed.

(** [uniqueZips] holds each zip code once, cut to five characters. *)
Lemma uniqueZips_spec (records : list CSVRow) :
  NoDup (uniqueZips records)
  ∧ Forall (λ z, String.length z ≤ 5) (uniqueZips records).
Proof.
  unfold uniqueZips.
  assert (∀ acc : list string,
            NoDup acc → Forall (λ z, String.length z ≤ 5) acc →
            let s := foldl (λ s row,
                       if String.eqb (ZipCode row) "" then s
                       else Set_add s (substring0 5 (ZipCode row)))
                     acc records in
            NoDup s ∧ Forall (λ z, String.length z ≤ 5) s) as Hgen.
  { induction records as [|row records IH]; intros acc Hnd Hlen; simpl.
    - done.
    - destruct (String.eqb (ZipCode row) ""); [by apply IH|].
      apply IH.
      + by apply Set_add_NoDup.
      + apply Set_add_Forall; [done|]. apply substring0_length. }
  apply Hgen; constructor.
Qed.

(** The loop makes one delayed request per zip code, in order, when the
    zip codes are distinct, normal and not cached. *)
Lemma fetch_all_trace (zips : list string) :
  ∀ (w : World) (fetched failed : nat),
    NoDup zips →
    Forall (λ z, String.length z ≤ 5) zips →
    Forall (λ z, zipCache w !! z = None) zips →
    trace (fetch_all rt zips fetched failed w).2
    = trace w ++ flat_map (λ z, [Sleep 100; Fetch (api_url z)]) zips.
Proof.
  induction zips as [|zip rest IH]; intros w fetched failed Hnd Hlen Hmiss.
  - simpl. by rewrite app_nil_r.
  - apply NoDup_cons in Hnd as [Hnotin Hnd].
    apply Forall_cons in Hlen as [Hzip Hlen].
    apply Forall_cons in Hmiss as [Hc Hmiss].
    assert (substring0 5 zip = zip) as Hz by by apply substring0_short.
    rewrite <- Hz in Hc.
    pose proof (getZipCoordinates_miss_trace rt zip w Hc) as Htrace.
    assert (Forall (λ z, zipCache (getZipCoordinates rt zip w).2 !! z = None)
              rest) as Hmiss'.
    { apply Forall_forall. intros z Hin.
      rewrite (getZipCoordinates_miss_frame rt zip w z Hc).
      - rewrite Forall_forall in Hmiss. by apply Hmiss.
      - rewrite Hz. by intros ->. }
    simpl. unfold mbind, Run_bind.
    destruct (getZipCoordinates rt zip w) as [coords w1]. simpl in *.
    rewrite Hz in Htrace.
    destruct (truthy coords); rewrite IH by done;
      rewrite Htrace; by rewrite <- app_assoc.
Qed.

Lemma remote_calls_app (t1 t2 : list Event) :
  remote_calls (t1 ++ t2) = remote_calls t1 ++ remote_calls t2.
Proof. apply omap_app. Qed.

Lemma remote_calls_batch (zips : list string) :
  remote_calls (flat_map (λ z, [Sleep 100; Fetch (api_url z)]) zips)
  = api_url <$> zips.
Proof. induction zips as [|z zips IH]; simpl; [done|]. by f_equal. Qed.

Lemma filter_complement_length (P : string → Prop) `{!∀ z, Decision (P z)}
    (Q : string → Prop) `{!∀ z, Decision (Q z)} (l : list string) :
  (∀ z, P z ↔ ¬ Q z) →
  length (filter P l) = length l - length (filter Q l).
Proof.
  intros HPQ.
  assert (length (filter P l) + length (filter Q l) = length l); [|lia].
  induction l as [|z l IH]; [done|].
  rewrite !filter_cons. specialize (HPQ z).
  destruct (decide (P z)), (decide (Q z)); simpl; try lia; tauto.
Qed.

#[local] Instance api_url_inj : Inj (=) (=) api_url.
Proof. unfold api_url. apply _. Qed.

(** C4, as the code has it.  The pre-fetch makes one remote call for each
    unique zip code that is not cached, and none for the others: with [n]
    unique zip codes of which [k] are cached that is [n - k] calls, for
    pairwise different zip codes, each coming right after a delay of 100 ms
    (whatever the calls answer).  The delay belongs to [getZipCoordinates]
    itself: a single call for a zip code that is not cached waits 100 ms
    before its request as well. *)
Theorem prefetch_makes_one_delayed_call_per_uncached_zip
    (records : list CSVRow) (w : World) :
  let zips := uniqueZips records in
  let uncached := filter (λ z, zipCache w !! z = None) zips in
  let n := length zips in
  let k := length (filter (λ z, is_Some (zipCache w !! z)) zips) in
  let w' := (prefetch rt records w).2 in
  trace w'
    = trace w ++ flat_map (λ z, [Sleep 100; Fetch (api_url z)]) uncached
  ∧ remote_calls (trace w') = remote_calls (trace w) ++ (api_url <$> uncached)
  ∧ NoDup (api_url <$> uncached)
  ∧ length uncached = n - k
  ∧ ∀ (zipCode : string) (w0 : World),
      zipCache w0 !! substring0 5 zipCode = None →
      trace (getZipCoordinates rt zipCode w0).2
      = trace w0 ++ [Sleep 100; Fetch (api_url (substring0 5 zipCode))].
Proof.
  intros zips uncached n k w'.
  destruct (uniqueZips_spec records) as [Hnd Hlen]. fold zips in Hnd, Hlen.
  assert (NoDup uncached) as Hnd' by by apply NoDup_filter.
  assert (trace w'
          = trace w ++ flat_map (λ z, [Sleep 100; Fetch (api_url z)]) uncached)
    as Htrace.
  { subst w'. unfold prefetch. fold zips. fold uncached.
    destruct uncached as [|z0 rest] eqn:Hun.
    - simpl. by rewrite app_nil_r.
    - rewrite <- Hun in *. unfold mbind, Run_bind.
      pose proof (fetch_all_trace uncached w 0 0 Hnd') as Hall.
      destruct (fetch_all rt uncached 0 0 w) as [counts w1]. simpl in *.
      apply Hall.
      + apply Forall_forall. intros z [_ Hz]%list_elem_of_filter.
        rewrite Forall_forall in Hlen. by apply Hlen.
      + apply Forall_forall. by intros z [Hz _]%list_elem_of_filter. }
  repeat split.
  - done.
  - by rewrite Htrace, remote_calls_app, remote_calls_batch.
  - by apply (NoDup_fmap_2 _).
  - apply filter_complement_length. intros z.
    rewrite <- not_eq_None_Some. tauto.
  - intros zipCode w0. apply getZipCoordinates_miss_trace.
Qed.

(** C4 as stated fails in its last part: a single lookup, outside any
    batch, of a zip code that is not cached waits 100 ms before the
    request. *)
Lemma single_lookup_is_delayed_too :
  trace (getZipCoordinates sample_runtime "44289" fresh).2
  = [Sleep 100; Fetch "https://api.zippopotam.us/us/44289"].
Proof. reflexivity. Qed.

End batch.

Section batch_examples.
Import Js Accurate.

Lemma prefetch_makes_one_delayed_call_per_uncached_zip_witness :
  length (uniqueZips twelve_rows) = 10
  ∧ length (filter (λ z, is_Some (zipCache warm !! z)) (uniqueZips twelve_rows))
    = 3
  ∧ length (remote_calls (trace (prefetch sample_runtime twelve_rows warm).2))
    = 7.
Proof.
  destruct (prefetch_makes_one_delayed_call_per_uncached_zip
              sample_runtime twelve_rows warm)
    as (_ & Hcalls & _ & Hlen & _).
  split; [by vm_compute|]. split; [by vm_compute|].
  rewrite Hcalls, length_app, length_fmap, Hlen. by vm_compute.
Defined.

End batch_examples.

(** ** Saving and loading the cache *)

Section json_induction.
Import Js.
Context (P : json → Prop).
Context (HNull : P JNull) (HBool : ∀ b, P (JBool b)) (HNum : ∀ x, P (JNum x))
        (HStr : ∀ s, P (JStr s))
        (HArr : ∀ items, Forall P items → P (JArr items))
        (HObj : ∀ fields, Forall (λ kv, P kv.2) fields → P (JObj fields)).

(** Induction on values, with the induction hypothesis for every element
    of an array and every property of an object. *)
Fixpoint json_induction (v : json) : P v :=
  match v with
  | JNull => HNull
  | JBool b => HBool b
  | JNum x => HNum x
  | JStr s => HStr s
  | JArr items =>
      HArr items
        ((fix go (l : list json) : Forall P l :=
            match l with
            | [] => List.Forall_nil P
            | x :: l' => @List.Forall_cons _ P x l' (json_induction x) (go l')
            end) items)
  | JObj fields =>
      HObj fields
        ((fix go (l : list (string * json)) : Forall (λ kv, P kv.2) l :=
            match l with
            | [] => List.Forall_nil (λ kv, P kv.2)
            | kv :: l' =>
                @List.Forall_cons _ (λ kv, P kv.2) kv l'
                  (json_induction kv.2) (go l')
            end) fields)
  end.

End json_induction.

Section persistence.
Import Js Accurate.

Lemma stringify_number_survives (x : float) :
  number_survives x = true → stringify_number x = JNum x.
Proof.
  unfold number_survives, stringify_number.
  intros [Hfin Hnz%negb_true_iff]%andb_true_iff. by rewrite Hfin, Hnz.
Qed.

(** A value whose numbers all survive is written and read back as it is. *)
Lemma JSON_stringify_survives (v : json) :
  survives v = true → JSON_stringify v = v.
Proof.
  induction v as [| | | |items IH|fields IH] using json_induction;
    simpl; intros Hs; try done.
  - by apply stringify_number_survives.
  - f_equal. induction IH as [|x l Hx _ IHl]; simpl in *; [done|].
    apply andb_true_iff in Hs as [Hs1 Hs2]. f_equal; auto.
  - f_equal. induction IH as [|[k x] l Hx _ IHl]; simpl in *; [done|].
    apply andb_true_iff in Hs as [Hs1 Hs2]. f_equal; auto.
    by rewrite Hx.
Qed.

(** The record built by [saveZipCache] holds every entry of the cache but
    one under [__proto__]. *)
Lemma saved_record (cache : gmap string json) :
  map_fold object_set ∅ cache = delete "__proto__" cache.
Proof.
  apply (map_fold_weak_ind (λ r m, r = delete "__proto__" m)).
  - by rewrite delete_empty.
  - intros k v m r Hk ->. unfold object_set. case_decide as Heq.
    + subst k. by rewrite delete_insert_eq.
    + by rewrite delete_insert_ne.
Qed.

(** Setting the entries of a map one after the other gives the map. *)
Lemma set_entries (entries : list (string * json)) (cache : gmap string json) :
  foldl (λ c e, <[e.1:=e.2]> c) cache entries
  = list_to_map (reverse entries) ∪ cache.
Proof.
  revert cache. induction entries as [|[k v] entries IH]; intros cache; simpl.
  - change (cache = ∅ ∪ cache). by rewrite (left_id_L ∅ (∪)).
  - rewrite IH, reverse_cons, list_to_map_app. simpl.
    rewrite <- (assoc_L (∪)), insert_empty.
    by rewrite <- insert_union_singleton_l.
Qed.

Lemma set_entries_of_map (m : gmap string json) :
  foldl (λ c e, <[e.1:=e.2]> c) ∅ (map_to_list m) = m.
Proof.
  rewrite set_entries, (right_id_L ∅ (∪)).
  rewrite <- (list_to_map_to_list m) at 2.
  apply list_to_map_proper.
  - rewrite fmap_reverse, reverse_Permutation. apply NoDup_fst_map_to_list.
  - apply reverse_Permutation.
Qed.

Lemma reloaded_spec (w : World) :
  reloaded w = JSON_stringify <$> delete "__proto__" (zipCache w).
Proof.
  unfold reloaded, saveZipCache, loadZipCache, JSON_stringify_record. simpl.
  by rewrite set_entries_of_map, saved_record.
Qed.

(** C9, as the code has it.  When no entry of the cache is under the key
    [__proto__] and every number in the cached values is finite and not
    negative zero, saving the cache and loading the file into an empty
    cache gives the same map, entries with the value [null] included. *)
Theorem saved_cache_is_read_back (w : World) :
  zipCache w !! "__proto__" = None →
  map_Forall (λ _ v, survives v = true) (zipCache w) →
  reloaded w = zipCache w.
Proof.
  intros Hproto Hsurv. rewrite reloaded_spec, delete_id by done.
  apply map_eq. intros k. rewrite lookup_fmap.
  destruct (zipCache w !! k) as [v|] eqn:Hk; simpl; [|done].
  f_equal. apply JSON_stringify_survives. by apply (Hsurv k).
Qed.

Lemma saved_cache_is_read_back_witness :
  reloaded warm = zipCache warm.
Proof.
  apply (saved_cache_is_read_back warm).
  - reflexivity.
  - apply map_Forall_insert_2; [reflexivity|].
    apply map_Forall_insert_2; [reflexivity|].
    apply map_Forall_insert_2; [reflexivity|].
    apply map_Forall_empty.
Defined.

Lemma different_at (k : string) (m1 m2 : gmap string json) (v1 v2 : json) :
  m1 !! k = Some v1 → m2 !! k = Some v2 → v1 ≠ v2 → m1 ≠ m2.
Proof. intros H1 H2 Hne ->. congruence. Qed.

(** C9 as stated fails.  A place that the service sends without latitude
    and longitude is cached with [NaN] for both, [NaN] is written to the
    file as [null], and the cache read back differs from the one saved.
    So does a cache with an entry under [__proto__], which is not written,
    and a cache with a negative zero, which is read back as zero. *)
Lemma cache_with_NaN_is_not_read_back :
  (zipCache (getZipCoordinates sample_runtime "88888" fresh).2 !! "88888"
     = Some (JObj [("lat", JNum nan); ("lng", JNum nan);
                   ("city", JStr "Nowhere")])
   ∧ reloaded (getZipCoordinates sample_runtime "88888" fresh).2 !! "88888"
     = Some (JObj [("lat", JNull); ("lng", JNull); ("city", JStr "Nowhere")])
   ∧ reloaded (getZipCoordinates sample_runtime "88888" fresh).2
     ≠ zipCache (getZipCoordinates sample_runtime "88888" fresh).2)
  ∧ reloaded with_proto_key ≠ zipCache with_proto_key
  ∧ reloaded on_the_equator ≠ zipCache on_the_equator.
Proof.
  split; [|split].
  2:{ intros Heq.
      assert (reloaded with_proto_key !! "__proto__" = None) as H1
        by (vm_compute; reflexivity).
      rewrite Heq in H1. discriminate H1. }
  2:{ apply (different_at "00001" _ _
               (JObj [("lat", JNum zero); ("lng", JNum 10)])
               (JObj [("lat", JNum neg_zero); ("lng", JNum 10)])).
      - vm_compute; reflexivity.
      - vm_compute; reflexivity.
      - intros Heq. assert (zero = neg_zero) as Hz by congruence.
        apply (f_equal (λ x, PrimFloat.Leibniz.eqb x zero)) in Hz.
        vm_compute in Hz. discriminate Hz. }
  assert (zipCache (getZipCoordinates sample_runtime "88888" fresh).2
            !! "88888"
          = Some (JObj [("lat", JNum nan); ("lng", JNum nan);
                        ("city", JStr "Nowhere")])) as H1
    by (vm_compute; reflexivity).
  assert (reloaded (getZipCoordinates sample_runtime "88888" fresh).2
            !! "88888"
          = Some (JObj [("lat", JNull); ("lng", JNull);
                        ("city", JStr "Nowhere")])) as H2
    by (vm_compute; reflexivity).
  split; [exact H1|]. split; [exact H2|].
  intros Heq.
  pose proof (eq_trans (eq_sym H2)
                (eq_trans (f_equal (λ m, m !! "88888") Heq) H1)) as Habs.
  discriminate Habs.
Qed.

End persistence.

(** ** The prefix table and [getApproximateLocation] *)

Section prefix_table.
Import Approximate.

#[local] Instance entry_before_dec : RelDecision entry_before.
Proof. intros e1 e2. unfold entry_before. apply _. Defined.

(** Every entry of the table lies wholly before every later entry. *)
Lemma ZIP_RANGES_sorted : StronglySorted entry_before ZIP_RANGES.
Proof. apply (bool_decide_unpack _). by vm_compute. Qed.

(** A prefix is in one of two ranges at most when one lies before the
    other. *)
Lemma range_before_disjoint (prefix : Z) (r1 r2 : string) :
  range_before r1 r2 = true →
  within prefix r1 = true → within prefix r2 = true → False.
Proof.
  unfold range_before, within.
  destruct (bounds r1) as [[s1|] [e1|]], (bounds r2) as [[s2|] [e2|]];
    try done.
  rewrite !andb_true_iff, !bool_decide_eq_true. lia.
Qed.

(** In a table sorted like this the search finds the one entry whose
    range holds the prefix. *)
Lemma find_in_sorted (prefix : Z) (table : list (string * LatLng))
    (e : string * LatLng) :
  StronglySorted entry_before table →
  e ∈ table → within prefix e.1 = true →
  List.find (λ entry, within prefix entry.1) table = Some e.
Proof.
  induction 1 as [|x l Hsorted IH Hx]; intros Hin Hw.
  - by apply elem_of_nil in Hin.
  - simpl. apply elem_of_cons in Hin as [->|Hin].
    + by rewrite Hw.
    + destruct (within prefix x.1) eqn:Hwx; [|by apply IH].
      rewrite Forall_forall in Hx.
      destruct (range_before_disjoint prefix x.1 e.1 (Hx e Hin) Hwx Hw).
Qed.

Lemma find_nowhere (prefix : Z) (table : list (string * LatLng)) :
  (∀ e, e ∈ table → within prefix e.1 = false) →
  List.find (λ entry, within prefix entry.1) table = None.
Proof.
  induction table as [|x l IH]; intros Hno; simpl; [done|].
  rewrite (Hno x) by apply list_elem_of_here.
  apply IH. intros e He. apply Hno. by apply list_elem_of_further.
Qed.

Lemma substring_three (c1 c2 c3 : Ascii.ascii) (rest : string) :
  String.substring 0 3 (String c1 (String c2 (String c3 rest)))
  = String c1 (String c2 (String c3 "")).
Proof. simpl. by destruct rest. Qed.

Example parseInt_samples :
  parseInt "442" = Some 442%Z ∧ parseInt " 12" = Some 12%Z
  ∧ parseInt "12a" = Some 12%Z ∧ parseInt "0x9" = Some 9%Z
  ∧ parseInt "-07" = Some (-7)%Z ∧ parseInt "abc" = None.
Proof. repeat split. Qed.

Example getApproximateLocation_samples :
  getApproximateLocation "10001" = Some {| lat := 40.7; lng := -74.0 |}
  ∧ getApproximateLocation "09012" = None
  ∧ getApproximateLocation "99950" = Some {| lat := 61.22; lng := -149.9 |}
  ∧ getApproximateLocation "" = None.
Proof. repeat split; by vm_compute. Qed.

(** [parseInt] of three decimal digits is the number they denote. *)
Lemma parseInt_three_digits (d1 d2 d3 : nat) :
  d1 < 10 → d2 < 10 → d3 < 10 →
  parseInt (String (digit d1) (String (digit d2) (String (digit d3) "")))
  = Some (Z.of_nat (100 * d1 + 10 * d2 + d3)).
Proof.
  intros H1 H2 H3.
  destruct d1 as [|[|[|[|[|[|[|[|[|[|d1]]]]]]]]]]; [idtac..|lia];
    (destruct d2 as [|[|[|[|[|[|[|[|[|[|d2]]]]]]]]]]; [idtac..|lia]);
    (destruct d3 as [|[|[|[|[|[|[|[|[|[|d3]]]]]]]]]]; [idtac..|lia]);
    reflexivity.
Qed.

(** C8.  The ranges of the table are proper ranges, each lying wholly
    before all later ones, so that they are ordered by their starts and no
    two overlap.  For a zip code that starts with three digits,
    [getApproximateLocation] returns the coordinates of the range that
    holds the number of these digits, which is the only such range of the
    table, and [null] when no range holds it. *)
Theorem prefix_lookup_finds_the_one_range
    (d1 d2 d3 : nat) (rest : string) :
  d1 < 10 → d2 < 10 → d3 < 10 →
  let zipCode :=
    String (digit d1) (String (digit d2) (String (digit d3) rest)) in
  let prefix := Z.of_nat (100 * d1 + 10 * d2 + d3) in
  StronglySorted entry_before ZIP_RANGES
  ∧ (∀ range coords,
       (range, coords) ∈ ZIP_RANGES → within prefix range = true →
       getApproximateLocation zipCode = Some coords
       ∧ ∀ range' coords',
           (range', coords') ∈ ZIP_RANGES → within prefix range' = true →
           (range', coords') = (range, coords))
  ∧ ((∀ range coords,
        (range, coords) ∈ ZIP_RANGES → within prefix range = false) →
     getApproximateLocation zipCode = None).
Proof.
  intros H1 H2 H3 zipCode prefix.
  assert (getApproximateLocation zipCode
          = snd <$> List.find (λ entry, within prefix entry.1) ZIP_RANGES)
    as Hrun.
  { unfold getApproximateLocation, zipCode.
    rewrite bool_decide_eq_false_2 by (simpl; lia).
    rewrite substring_three. by rewrite parseInt_three_digits. }
  split; [apply ZIP_RANGES_sorted|]. split.
  - intros range coords Hin Hw.
    pose proof (find_in_sorted prefix ZIP_RANGES (range, coords)
                  ZIP_RANGES_sorted Hin Hw) as Hfind.
    split; [by rewrite Hrun, Hfind|].
    intros range' coords' Hin' Hw'.
    pose proof (find_in_sorted prefix ZIP_RANGES (range', coords')
                  ZIP_RANGES_sorted Hin' Hw') as Hfind'.
    congruence.
  - intros Hno. rewrite Hrun, find_nowhere; [done|].
    intros [range coords] Hin. by apply (Hno range coords).
Qed.

Lemma prefix_lookup_finds_the_one_range_witness :
  getApproximateLocation "44289"
    = Some {| lat := 41.5; lng := -81.7 |}
  ∧ getApproximateLocation "00000" = None.
Proof.
  destruct (prefix_lookup_finds_the_one_range 4 4 2 "89")
    as (_ & Hfound & _); [lia..|].
  destruct (prefix_lookup_finds_the_one_range 0 0 0 "00")
    as (_ & _ & Hnone); [lia..|].
  split.
  - apply (Hfound "440-449" {| lat := 41.5; lng := -81.7 |});
      [|reflexivity].
    do 26 apply list_elem_of_further. apply list_elem_of_here.
  - apply Hnone. intros range coords Hin.
    assert (Forall (λ e, within 0 e.1 = false) ZIP_RANGES) as Hall
      by (apply (bool_decide_unpack _); by vm_compute).
    rewrite Forall_forall in Hall. apply (Hall (range, coords) Hin).
Defined.

End prefix_table.

(** ** The distance of TEST 3 *)

Section great_circle.
Import GeoTest.
#[local] Open Scope R_scope.

(** The argument of [ACOS] is the cosine of an angle: it is never outside
    the interval from -1 to 1. *)
Lemma cosine_rule_bound (p1 p2 dl : R) :
  -1 <= cos p1 * cos p2 * cos dl + sin p1 * sin p2 <= 1.
Proof.
  pose proof (COS_bound dl) as [Hl Hu].
  pose proof (COS_bound (p1 - p2)) as [Hml Hmu]. rewrite cos_minus in Hml, Hmu.
  pose proof (COS_bound (p1 + p2)) as [Hpl Hpu]. rewrite cos_plus in Hpl, Hpu.
  set (A := cos p1 * cos p2) in *. set (B := sin p1 * sin p2) in *.
  set (t := cos dl) in *.
  assert (0 <= (1 + t) * (1 - (A + B))) by (apply Rmult_le_pos; lra).
  assert (0 <= (1 - t) * (1 - (B - A))) by (apply Rmult_le_pos; lra).
  assert (0 <= (1 + t) * (1 + (A + B))) by (apply Rmult_le_pos; lra).
  assert (0 <= (1 - t) * (1 + (B - A))) by (apply Rmult_le_pos; lra).
  split; lra.
Qed.

(** [sin² (x / 2) = (1 - cos x) / 2]. *)
Lemma sin_half_sqr (x : R) : (sin (x / 2))² = (1 - cos x) / 2.
Proof.
  replace x with (2 * (x / 2)) at 2 by lra.
  rewrite cos_2a_sin. unfold Rsqr. lra.
Qed.

(** The expression of TEST 3 is the haversine formula. *)
Lemma distance_miles_haversine (a b : Geography) :
  distance_miles a b = haversine a b.
Proof.
  unfold distance_miles, haversine.
  set (p1 := RADIANS (Lat a)). set (p2 := RADIANS (Lat b)).
  set (dl := RADIANS (Long b) - RADIANS (Long a)).
  set (x := cos p1 * cos p2 * cos dl + sin p1 * sin p2).
  pose proof (cosine_rule_bound p1 p2 dl) as Hx. fold x in Hx.
  pose proof (acos_bound x) as Hacos.
  assert ((sin ((p2 - p1) / 2))² + cos p1 * cos p2 * (sin (dl / 2))²
          = (sin (acos x / 2))²) as ->.
  { rewrite !sin_half_sqr, cos_acos by done.
    rewrite cos_minus. unfold x. lra. }
  rewrite sqrt_Rsqr by (apply sin_ge_0; lra).
  rewrite asin_sin by lra. lra.
Qed.

(** The argument of [ACOS] is the scalar product of the two directions. *)
Lemma distance_miles_angle (a b : Geography) :
  distance_miles a b = 3959 * angular_separation a b.
Proof.
  unfold distance_miles, angular_separation, dot, unit_vector. simpl.
  f_equal. f_equal. rewrite cos_minus. ring.
Qed.

(** In exact arithmetic the distance of TEST 3, [3959 * ACOS(...)], is the
    haversine great-circle distance for a radius of 3959 miles; it is 0
    from a point to itself, the same in both directions, and 3959 times
    the angle between the two directions, so that it grows with that angle
    and only with it.  (The database computes the expression on [FLOAT]
    values; what rounding does to these equations, the first above all, is
    not covered.) *)
Lemma distance_miles_on_the_reals (a b c d : Geography) :
  distance_miles a b = haversine a b
  ∧ distance_miles a a = 0
  ∧ distance_miles a b = distance_miles b a
  ∧ distance_miles a b = 3959 * angular_separation a b
  ∧ (distance_miles a b <= distance_miles c d
     ↔ angular_separation a b <= angular_separation c d)
  ∧ (distance_miles a b < distance_miles c d
     ↔ angular_separation a b < angular_separation c d).
Proof.
  split; [apply distance_miles_haversine|]. split; [|split; [|split]].
  - unfold distance_miles. rewrite Rminus_diag, cos_0.
    pose proof (sin2_cos2 (RADIANS (Lat a))) as H. unfold Rsqr in H.
    replace (_ + _) with 1 by lra. rewrite acos_1. lra.
  - unfold distance_miles. f_equal. f_equal.
    replace (RADIANS (Long a) - RADIANS (Long b))
      with (- (RADIANS (Long b) - RADIANS (Long a))) by lra.
    rewrite cos_neg. ring.
  - apply distance_miles_angle.
  - rewrite !distance_miles_angle. split; split; lra.
Qed.

End great_circle.

(** ** The three radius queries *)

Section strategies.
Import GeoTest.
#[local] Open Scope R_scope.

Lemma Rle_bool_true (x y : R) : Rle_bool x y = true ↔ x <= y.
Proof. unfold Rle_bool. destruct (Rle_dec x y); split; done. Qed.

(** The first two statements are run, on every table. *)
Lemma native_and_boxed_results (db : Engine)
    (centerLat centerLng RADIUS_MILES : R) (table : list Row) :
  result1 db centerLat centerLng RADIUS_MILES table
  = Recordset
      (List.filter (WHERE (TEST1 db centerLat centerLng RADIUS_MILES)) table)
  ∧ result2 db centerLat centerLng RADIUS_MILES table
    = Recordset
        (List.filter (WHERE (TEST2 db centerLat centerLng RADIUS_MILES))
                     table).
Proof. done. Qed.

(** C5 fails on the code, for every table: the statement of the third
    test has a [HAVING] clause over a column and no [GROUP BY] clause, the
    server refuses it, and [runTests] is rejected after the second test.
    The first two tests return their rows, those of the bounding-box test
    among those of the native test; the third returns no rows to compare
    with them. *)
Theorem exhaustive_query_is_refused (db : Engine)
    (centerLat centerLng RADIUS_MILES : R) (table : list Row) :
  result3 centerLat centerLng RADIUS_MILES table = RequestError
  ∧ runTests db centerLat centerLng RADIUS_MILES table = Rejected 2
  ∧ (∃ native boxed,
       result1 db centerLat centerLng RADIUS_MILES table = Recordset native
       ∧ result2 db centerLat centerLng RADIUS_MILES table = Recordset boxed
       ∧ (∀ row, In row boxed → In row native)
       ∧ result3 centerLat centerLng RADIUS_MILES table ≠ Recordset native
       ∧ result3 centerLat centerLng RADIUS_MILES table ≠ Recordset boxed).
Proof.
  destruct (native_and_boxed_results db centerLat centerLng RADIUS_MILES
              table) as [H1 H2].
  split; [done|]. split; [by unfold runTests; rewrite H1, H2|].
  eexists _, _. split; [exact H1|]. split; [exact H2|].
  split; [|by split].
  intros row [Hin Hrow]%filter_In. apply filter_In. split; [done|].
  simpl in *. destruct (GeoLocation row); [|done].
  by apply andb_true_iff in Hrow as [_ ?].
Qed.

Lemma filter_singleton {A : Type} (f : A → bool) (x : A) :
  f x = true → List.filter f [x] = [x].
Proof. simpl. by intros ->. Qed.

(** The script's own run on a table that holds one profile, stored at the
    centre of the search: the first two tests find it, the third is
    refused. *)
Example run_on_a_profile_at_the_centre :
  result1 flat_engine 41.01 (-81.84) 50 [sterling_row]
  = Recordset [sterling_row]
  ∧ result2 flat_engine 41.01 (-81.84) 50 [sterling_row]
    = Recordset [sterling_row]
  ∧ result3 41.01 (-81.84) 50 [sterling_row] = RequestError
  ∧ runTests flat_engine 41.01 (-81.84) 50 [sterling_row] = Rejected 2.
Proof.
  assert (Rle_bool
            (STDistance flat_engine {| Lat := 41.01; Long := -81.84 |}
               {| Lat := 41.01; Long := -81.84 |})
            (radiusMeters 50) = true) as Hhere.
  { apply Rle_bool_true. unfold radiusMeters. simpl.
    rewrite !Rminus_diag, Rsqr_0, Rplus_0_l, sqrt_0. lra. }
  assert (result1 flat_engine 41.01 (-81.84) 50 [sterling_row]
          = Recordset [sterling_row]) as H1.
  { unfold result1, query. cbn [HAVING TEST1]. f_equal.
    apply filter_singleton. exact Hhere. }
  assert (result2 flat_engine 41.01 (-81.84) 50 [sterling_row]
          = Recordset [sterling_row]) as H2.
  { unfold result2, query. cbn [HAVING TEST2]. f_equal.
    apply filter_singleton. exact Hhere. }
  split; [done|]. split; [done|]. split; [done|].
  unfold runTests. by rewrite H1, H2.
Qed.

End strategies.

(** ** The planner *)

Section planner.
Import Planner.

(** C6.  When none of the three resolution stages yields a coordinate for
    the centre zip code, [findWithinRadius] returns
    [QueryFailure UnresolvableCenter], which is not a [SearchResult],
    empty or not. *)
Theorem unresolvable_center_is_a_failure {Target : Type} (st : Stages)
    (search : Approximate.LatLng → float → Target → option (list Hit))
    (centerZip : string) (radiusMiles : float) (target : Target) :
  cache_stage st centerZip = None →
  remote_stage st centerZip = None →
  fallback_stage st centerZip = None →
  findWithinRadius st search centerZip radiusMiles target
    = QueryFailure UnresolvableCenter
  ∧ ∀ hits,
      findWithinRadius st search centerZip radiusMiles target
      ≠ SearchResult hits.
Proof.
  intros Hcache Hremote Hfallback.
  assert (findWithinRadius st search centerZip radiusMiles target
          = QueryFailure UnresolvableCenter) as Hfail.
  { unfold findWithinRadius, resolve.
    by rewrite Hcache, Hremote, Hfallback. }
  split; [done|]. intros hits. by rewrite Hfail.
Qed.

Lemma unresolvable_center_is_a_failure_witness :
  findWithinRadius (stages_of Accurate.sample_runtime Accurate.fresh)
    (λ _ _ (_ : unit), Some []) "00000" 50 tt
  = QueryFailure UnresolvableCenter.
Proof.
  apply (unresolvable_center_is_a_failure
           (stages_of Accurate.sample_runtime Accurate.fresh)
           (λ _ _ (_ : unit), Some []) "00000" 50 tt);
    reflexivity.
Defined.

End planner.

(* ===================================================================== *)
(** * Part III: more of what the programs do                              *)
(* ===================================================================== *)

(** ** More on [getZipCoordinates] *)

Section resolver_more.
Import Js Accurate.
Context (rt : Runtime).

Lemma object_of_truthy (c : ZipCoordinates) : or_null (object_of c) = object_of c.
Proof. done. Qed.

(** The two ways a miss can end: in the [catch] clause, with [null] and
    an unchanged cache, or with a result that is [null] or a coordinate
    object and that the cache then holds for the zip code. *)
Lemma getZipCoordinates_miss_cases (zipCode : string) (w : World) :
  let zip5 := substring0 5 zipCode in
  zipCache w !! zip5 = None →
  (caught (service rt (trace w ++ [Sleep 100]) (api_url zip5)) = true
   ∧ getZipCoordinates rt zipCode w = (JNull, requested zip5 w))
  ∨ (caught (service rt (trace w ++ [Sleep 100]) (api_url zip5)) = false
     ∧ ∃ r, (r = JNull ∨ ∃ c, r = object_of c)
            ∧ getZipCoordinates rt zipCode w
              = (r, with_zipCache (<[zip5:=r]> (zipCache w))
                      (requested zip5 w))).
Proof.
  intros zip5 Hc. rewrite getZipCoordinates_miss by done. fold zip5.
  destruct (service rt _ _) as [|r]; [by left|]. simpl.
  destruct (ok r); [|by right; split; [|exists JNull; eauto]].
  destruct (body r) as [[]|]; try (by left);
    (destruct (first_place _) as [place|];
     [|by right; split; [|exists JNull; eauto]]);
    right; (split; [done|]); eexists; (split; [right; eauto|done]).
Qed.

Lemma getZipCoordinates_miss_settled (zipCode : string) (w : World) :
  let zip5 := substring0 5 zipCode in
  zipCache w !! zip5 = None →
  caught (service rt (trace w ++ [Sleep 100]) (api_url zip5)) = false →
  ∃ r, (r = JNull ∨ ∃ c, r = object_of c)
       ∧ getZipCoordinates rt zipCode w
         = (r, with_zipCache (<[zip5:=r]> (zipCache w)) (requested zip5 w)).
Proof.
  intros zip5 Hc Hcaught.
  destruct (getZipCoordinates_miss_cases zipCode w Hc) as [[Ht _]|[_ H]];
    [|done].
  fold zip5 in Ht. congruence.
Qed.

(** X1.  Once a call has found the zip code in the cache, or has made a
    request that did not end in the [catch] clause, the same call made
    again returns the same result and changes nothing: it adds no delay
    and no request to the trace. *)
Theorem second_call_is_answered_from_the_cache (zipCode : string) (w : World) :
  let zip5 := substring0 5 zipCode in
  let result := (getZipCoordinates rt zipCode w).1 in
  let w' := (getZipCoordinates rt zipCode w).2 in
  is_Some (zipCache w !! zip5)
  ∨ caught (service rt (trace w ++ [Sleep 100]) (api_url zip5)) = false →
  getZipCoordinates rt zipCode w' = (result, w').
Proof.
  intros zip5 result w' Hsettled. subst result w'.
  destruct (zipCache w !! zip5) as [cached|] eqn:Hc.
  - rewrite (getZipCoordinates_hit rt zipCode w cached Hc). simpl.
    apply getZipCoordinates_hit, Hc.
  - destruct Hsettled as [[? [=]]|Hcaught].
    destruct (getZipCoordinates_miss_settled zipCode w Hc Hcaught)
      as (r & Hr & ->). simpl.
    rewrite (getZipCoordinates_hit rt zipCode _ r)
      by (simpl; apply lookup_insert_eq).
    by destruct Hr as [->|[c ->]].
Qed.

(** X2.  What a call leaves alone: the cache file; the trace so far, to
    which it adds nothing or one delay followed by one request; every
    entry of the cache under another key than the first five characters of
    the zip code; and the whole cache when it has an entry under that key.
    No entry is ever removed. *)
Theorem call_touches_one_cache_entry_at_most (zipCode : string) (w : World) :
  let zip5 := substring0 5 zipCode in
  let w' := (getZipCoordinates rt zipCode w).2 in
  cacheFile w' = cacheFile w
  ∧ (trace w' = trace w
     ∨ trace w' = trace w ++ [Sleep 100; Fetch (api_url zip5)])
  ∧ (∀ k, k ≠ zip5 → zipCache w' !! k = zipCache w !! k)
  ∧ (∀ k, is_Some (zipCache w !! k) → is_Some (zipCache w' !! k))
  ∧ (is_Some (zipCache w !! zip5) → w' = w).
Proof.
  intros zip5 w'. subst w'.
  destruct (zipCache w !! zip5) as [cached|] eqn:Hc.
  - rewrite (getZipCoordinates_hit rt zipCode w cached Hc). simpl.
    repeat split; auto.
  - pose proof (getZipCoordinates_miss_trace rt zipCode w Hc) as Htrace.
    pose proof (getZipCoordinates_miss_frame rt zipCode w) as Hframe.
    assert (cacheFile (getZipCoordinates rt zipCode w).2 = cacheFile w)
      as Hfile.
    { destruct (getZipCoordinates_miss_cases zipCode w Hc)
        as [[_ ->]|[_ (r & _ & ->)]]; done. }
    split; [done|]. split; [by right|]. split; [by intros k Hk; apply Hframe|].
    split; [|by intros [? [=]]].
    intros k Hk. destruct (decide (k = zip5)) as [->|Hne].
    + rewrite Hc in Hk. by destruct Hk.
    + by rewrite Hframe.
Qed.

(** X3.  A cache whose values are all [null] or objects stays such a cache
    through every call, and the call returns [null] or an object. *)
Theorem cache_stays_well_typed (zipCode : string) (w : World) :
  map_Forall (λ _ v, ZipCoordinates_or_null v = true) (zipCache w) →
  map_Forall (λ _ v, ZipCoordinates_or_null v = true)
    (zipCache (getZipCoordinates rt zipCode w).2)
  ∧ ZipCoordinates_or_null (getZipCoordinates rt zipCode w).1 = true.
Proof.
  intros Hty.
  destruct (zipCache w !! substring0 5 zipCode) as [cached|] eqn:Hc.
  - rewrite (getZipCoordinates_hit rt zipCode w cached Hc). simpl.
    split; [done|]. pose proof (Hty _ _ Hc). by destruct cached.
  - destruct (getZipCoordinates_miss_cases zipCode w Hc)
      as [[_ ->]|[_ (r & Hr & ->)]]; simpl; [done|].
    assert (ZipCoordinates_or_null r = true) by by destruct Hr as [->|[c ->]].
    split; [|done]. by apply map_Forall_insert_2.
Qed.

(** X4.  Whatever a call returns other than [null] is what the cache holds
    for the zip code afterwards. *)
Theorem answer_is_null_or_cached (zipCode : string) (w : World) :
  let result := (getZipCoordinates rt zipCode w).1 in
  let w' := (getZipCoordinates rt zipCode w).2 in
  result = JNull ∨ zipCache w' !! substring0 5 zipCode = Some result.
Proof.
  intros result w'. subst result w'.
  destruct (zipCache w !! substring0 5 zipCode) as [cached|] eqn:Hc.
  - rewrite (getZipCoordinates_hit rt zipCode w cached Hc). simpl.
    unfold or_null. destruct (truthy cached); auto.
  - destruct (getZipCoordinates_miss_cases zipCode w Hc)
      as [[_ ->]|[_ (r & _ & ->)]]; simpl; [by left|].
    right. apply lookup_insert_eq.
Qed.

End resolver_more.

Section resolver_more_examples.
Import Js Accurate.

Lemma second_call_is_answered_from_the_cache_witness :
  getZipCoordinates sample_runtime "44289"
    (getZipCoordinates sample_runtime "44289" fresh).2
  = (sterling_coords, (getZipCoordinates sample_runtime "44289" fresh).2).
Proof.
  apply (second_call_is_answered_from_the_cache sample_runtime "44289" fresh).
  right. reflexivity.
Defined.

Lemma cache_stays_well_typed_witness :
  ZipCoordinates_or_null (getZipCoordinates sample_runtime "90210" warm).1
  = true.
Proof.
  apply (cache_stays_well_typed sample_runtime "90210" warm).
  apply map_Forall_insert_2; [reflexivity|].
  apply map_Forall_insert_2; [reflexivity|].
  apply map_Forall_insert_2; [reflexivity|].
  apply map_Forall_empty.
Defined.

End resolver_more_examples.

(** ** More on saving and loading the cache *)

Section persistence_more.
Import Js Accurate.

(** What [JSON.stringify] writes survives being written again. *)
Lemma JSON_stringify_written (v : json) : survives (JSON_stringify v) = true.
Proof.
  induction v as [| |x| |items IH|fields IH] using json_induction;
    simpl; try done.
  - unfold stringify_number.
    destruct (is_finite x) eqn:Hfin; [|done]. simpl. unfold number_survives.
    destruct (PrimFloat.Leibniz.eqb x neg_zero) eqn:Hz; [done|].
    by rewrite Hfin, Hz.
  - induction IH as [|y l Hy _ IHl]; simpl; [done|]. by rewrite Hy.
  - induction IH as [|[k y] l Hy _ IHl]; simpl in *; [done|]. by rewrite Hy.
Qed.

Lemma JSON_stringify_idemp (v : json) :
  JSON_stringify (JSON_stringify v) = JSON_stringify v.
Proof. apply JSON_stringify_survives, JSON_stringify_written. Qed.

Lemma reloaded_lookup (w : World) (k : string) :
  reloaded w !! k
  = if decide (k = "__proto__") then None
    else JSON_stringify <$> zipCache w !! k.
Proof.
  rewrite reloaded_spec, lookup_fmap. case_decide as Hk.
  - subst k. by rewrite lookup_delete_eq.
  - by rewrite lookup_delete_ne.
Qed.

(** X5.  [loadZipCache] never loses an entry and never fails: it leaves
    the trace and the file alone and keeps every key the cache has.  When
    the file holds an object (or anything else [Object.entries] accepts),
    the cache afterwards is the entries of the file, the last one for a
    key that is repeated, over the entries it had before. *)
Theorem load_merges_the_file_into_the_cache (w : World) :
  let w' := (loadZipCache w).2 in
  cacheFile w' = cacheFile w
  ∧ trace w' = trace w
  ∧ (∀ k, is_Some (zipCache w !! k) → is_Some (zipCache w' !! k))
  ∧ (∀ data entries,
       cacheFile w = Some (Json data) → Object_entries data = Some entries →
       zipCache w' = list_to_map (reverse entries) ∪ zipCache w)
  ∧ (cacheFile w = None ∨ cacheFile w = Some NotJson
     ∨ cacheFile w = Some (Json JNull) → w' = w).
Proof.
  intros w'. subst w'. unfold loadZipCache.
  destruct (cacheFile w) as [[|data]|] eqn:Hfile; simpl.
  1,3: by repeat split; auto; try congruence.
  destruct (Object_entries data) as [entries|] eqn:Hentries; simpl.
  - rewrite set_entries. split; [done|]. split; [done|]. split; [|split].
    + intros k Hk. rewrite lookup_union. destruct Hk as [v ->].
      by destruct (list_to_map (reverse entries) !! k).
    + intros ? ? [= <-]. congruence.
    + intros [?|[?|[= ->]]]; done.
  - by repeat split; auto; try congruence.
Qed.

(** X6.  The file that [saveZipCache] writes is stable: a process that
    loads it into an empty cache and saves again writes the same file, and
    from then on loading reproduces the cache exactly. *)
Theorem saved_file_is_stable (w : World) :
  let next := with_zipCache (reloaded w) (saveZipCache w).2 in
  cacheFile (saveZipCache next).2 = cacheFile (saveZipCache w).2
  ∧ reloaded next = zipCache next.
Proof.
  intros next.
  assert (JSON_stringify <$> delete "__proto__" (reloaded w) = reloaded w)
    as Hstable.
  { apply map_eq. intros k. rewrite lookup_fmap.
    destruct (decide (k = "__proto__")) as [->|Hk].
    - by rewrite lookup_delete_eq, reloaded_lookup, decide_True.
    - rewrite lookup_delete_ne, reloaded_lookup, decide_False by done.
      destruct (zipCache w !! k); simpl; [|done].
      by rewrite JSON_stringify_idemp. }
  split.
  - unfold saveZipCache, JSON_stringify_record. simpl.
    rewrite !saved_record, Hstable. by rewrite reloaded_spec.
  - by rewrite reloaded_spec.
Qed.

(** X7.  Through saving and loading no key but [__proto__] is lost and
    none is invented; an entry is read back as it was when its numbers are
    all finite and not negative zero, whatever the other entries are; and
    an entry with the value [null] is always read back as [null]. *)
Theorem reload_keeps_every_key (w : World) (k : string) :
  (k ≠ "__proto__" →
   (is_Some (reloaded w !! k) ↔ is_Some (zipCache w !! k))
   ∧ (∀ v, zipCache w !! k = Some v → survives v = true →
           reloaded w !! k = Some v)
   ∧ (zipCache w !! k = Some JNull → reloaded w !! k = Some JNull))
  ∧ reloaded w !! "__proto__" = None.
Proof.
  split; [|by rewrite reloaded_lookup, decide_True].
  intros Hk. rewrite reloaded_lookup, decide_False by done.
  split; [|split].
  - by rewrite <- !not_eq_None_Some, fmap_None.
  - intros v -> Hv. simpl. by rewrite JSON_stringify_survives.
  - by intros ->.
Qed.

Lemma reload_keeps_every_key_witness :
  reloaded (getZipCoordinates sample_runtime "88888" warm).2 !! "44289"
  = Some sterling_coords.
Proof.
  destruct (reload_keeps_every_key
              (getZipCoordinates sample_runtime "88888" warm).2 "44289")
    as [Hkey _].
  destruct Hkey as (_ & Hsame & _); [done|].
  apply Hsame; reflexivity.
Defined.

End persistence_more.

(** ** More on the pre-fetch loop *)

Section batch_more.
Import Js Accurate Rows.
Context (rt : Runtime).

Lemma elem_of_Set_add (s : list string) (x z : string) :
  z ∈ Set_add s x ↔ z ∈ s ∨ z = x.
Proof.
  unfold Set_add. case_decide as Hin.
  - split; [by left|]. by intros [?| ->].
  - rewrite elem_of_app, list_elem_of_singleton. done.
Qed.

(** The members of [uniqueZips]: the first five characters of the zip
    codes that are not empty. *)
Lemma elem_of_uniqueZips (records : list CSVRow) (z : string) :
  z ∈ uniqueZips records
  ↔ ∃ row, row ∈ records ∧ ZipCode row ≠ ""
           ∧ z = substring0 5 (ZipCode row).
Proof.
  unfold uniqueZips.
  assert (∀ acc : list string,
            z ∈ foldl (λ s row,
                         if String.eqb (ZipCode row) "" then s
                         else Set_add s (substring0 5 (ZipCode row)))
                      acc records
            ↔ z ∈ acc ∨ ∃ row, row ∈ records ∧ ZipCode row ≠ ""
                               ∧ z = substring0 5 (ZipCode row)) as Hgen.
  { induction records as [|row records IH]; intros acc; simpl.
    - split; [by left|]. intros [?|(row & Hin & _)]; [done|].
      by apply elem_of_nil in Hin.
    - destruct (String.eqb_spec (ZipCode row) "") as [Hempty|Hfull];
        rewrite IH; [|rewrite elem_of_Set_add]; split.
      + intros [?|(r & Hin & ? & ?)]; [by left|].
        right. exists r. split; [by apply list_elem_of_further|done].
      + intros [?|(r & Hin & Hne & ?)]; [by left|].
        apply elem_of_cons in Hin as [-> |Hin]; [done|]. right. eauto.
      + intros [[?| ->]|(r & Hin & ? & ?)]; [by left| |].
        * right. exists row. split; [apply list_elem_of_here|done].
        * right. exists r. split; [by apply list_elem_of_further|done].
      + intros [?|(r & Hin & Hne & ->)]; [by left; left|].
        apply elem_of_cons in Hin as [-> |Hin]; [by left; right|].
        right. eauto. }
  rewrite Hgen. split; [|by right]. intros [Hin|?]; [|done].
  by apply elem_of_nil in Hin.
Qed.

(** X8.  [uniqueZips] holds exactly the first five characters of the zip
    codes of the rows that have one, each once. *)
Theorem uniqueZips_are_the_normalized_zips (records : list CSVRow) :
  NoDup (uniqueZips records)
  ∧ ∀ z, z ∈ uniqueZips records
         ↔ ∃ row, row ∈ records ∧ ZipCode row ≠ ""
                  ∧ z = substring0 5 (ZipCode row).
Proof.
  split; [apply uniqueZips_spec|]. intros z. apply elem_of_uniqueZips.
Qed.

(** The loop, for zip codes that are distinct, normal and not cached:
    it changes the cache at these keys only, leaves the file alone, counts
    every zip code once, counts as fetched those that end up cached with a
    coordinate, and caches every zip code whose request did not end in the
    [catch] clause. *)
Lemma fetch_all_spec (zips : list string) :
  ∀ (w : World) (fetched failed : nat),
    NoDup zips →
    Forall (λ z, String.length z ≤ 5) zips →
    Forall (λ z, zipCache w !! z = None) zips →
    let counts := (fetch_all rt zips fetched failed w).1 in
    let w' := (fetch_all rt zips fetched failed w).2 in
    (∀ k, k ∉ zips → zipCache w' !! k = zipCache w !! k)
    ∧ cacheFile w' = cacheFile w
    ∧ counts.1 + counts.2 = fetched + failed + length zips
    ∧ counts.1
      = fetched
        + length (filter (λ z, truthy_opt (zipCache w' !! z) = true) zips)
    ∧ ((∀ t url, caught (service rt t url) = false) →
       ∀ z, z ∈ zips → is_Some (zipCache w' !! z)).
Proof.
  induction zips as [|zip rest IH]; intros w fetched failed Hnd Hlen Hmiss.
  - simpl. repeat split; auto; try lia. intros _ z Hz.
    by apply elem_of_nil in Hz.
  - apply NoDup_cons in Hnd as [Hnotin Hnd].
    apply Forall_cons in Hlen as [Hzip Hlen].
    apply Forall_cons in Hmiss as [Hc Hmiss].
    assert (substring0 5 zip = zip) as Hz by by apply substring0_short.
    rewrite <- Hz in Hc.
    assert (∀ k, k ≠ zip →
                 zipCache (getZipCoordinates rt zip w).2 !! k
                 = zipCache w !! k) as Hframe.
    { intros k Hk. apply getZipCoordinates_miss_frame; [done|].
      by rewrite Hz. }
    pose proof (getZipCoordinates_miss_cases rt zip w Hc) as Hcases.
    rewrite Hz in Hcases.
    simpl. unfold mbind, Run_bind.
    destruct (getZipCoordinates rt zip w) as [coords w1] eqn:Hrun.
    simpl in Hframe.
    assert (cacheFile w1 = cacheFile w
            ∧ truthy_opt (zipCache w1 !! zip) = truthy coords
            ∧ (caught (service rt (trace w ++ [Sleep 100]) (api_url zip))
               = false → is_Some (zipCache w1 !! zip))) as (Hfile & Htr & Hin).
    { destruct Hcases as [[Hcaught [= -> ->]]|[Hcaught (r & Hr & [= -> ->])]].
      - simpl. rewrite Hz in Hc. rewrite Hc. split; [done|]. split; [done|].
        congruence.
      - simpl. rewrite lookup_insert_eq. split; [done|]. split; [done|].
        eauto. }
    assert (Forall (λ z, zipCache w1 !! z = None) rest) as Hmiss1.
    { apply Forall_forall. intros z Hin'. rewrite Hframe by by intros ->.
      rewrite Forall_forall in Hmiss. by apply Hmiss. }
    assert (∀ a b,
              let counts := (fetch_all rt rest a b w1).1 in
              let w' := (fetch_all rt rest a b w1).2 in
              (∀ k, k ∉ zip :: rest → zipCache w' !! k = zipCache w !! k)
              ∧ cacheFile w' = cacheFile w
              ∧ counts.1 + counts.2 = a + b + length rest
              ∧ counts.1 + (if truthy coords then 1 else 0)
                = a + length (filter
                                (λ z, truthy_opt (zipCache w' !! z) = true)
                                (zip :: rest))
              ∧ ((∀ t url, caught (service rt t url) = false) →
                 ∀ z, z ∈ zip :: rest → is_Some (zipCache w' !! z)))
      as Hrest.
    { intros a b.
      destruct (IH w1 a b Hnd Hlen Hmiss1) as (H1 & H2 & H3 & H4 & H5).
      simpl. split; [|split; [|split; [|split]]].
      - intros k Hk. apply not_elem_of_cons in Hk as [Hk1 Hk2].
        rewrite H1 by done. by apply Hframe.
      - congruence.
      - done.
      - rewrite filter_cons, (H1 zip Hnotin), Htr, H4.
        destruct (truthy coords); simpl; lia.
      - intros Hnever z [-> |Hin']%elem_of_cons.
        + rewrite (H1 _ Hnotin). apply Hin, Hnever.
        + by apply H5. }
    destruct (truthy coords).
    + destruct (Hrest (S fetched) failed) as (H1 & H2 & H3 & H4 & H5).
      simpl in *. repeat split; auto; lia.
    + destruct (Hrest fetched (S failed)) as (H1 & H2 & H3 & H4 & H5).
      simpl in *. repeat split; auto; lia.
Qed.


Lemma filter_none (P : string → Prop) `{!∀ z, Decision (P z)}
    (l : list string) :
  (∀ z, z ∈ l → ¬ P z) → filter P l = [].
Proof.
  induction l as [|z l IH]; intros Hno; [done|].
  rewrite filter_cons, decide_False by (apply Hno, list_elem_of_here).
  apply IH. intros y Hy. by apply Hno, list_elem_of_further.
Qed.

(** The zip codes that [importData] asks for are distinct, normal and not
    cached. *)
Lemma uncachedZips_spec (records : list CSVRow) (w : World) :
  let uncachedZips :=
    filter (λ z, zipCache w !! z = None) (uniqueZips records) in
  NoDup uncachedZips
  ∧ Forall (λ z, String.length z ≤ 5) uncachedZips
  ∧ Forall (λ z, zipCache w !! z = None) uncachedZips.
Proof.
  destruct (uniqueZips_spec records) as [Hnd Hlen]. simpl.
  split; [by apply NoDup_filter|]. split.
  - apply Forall_forall. intros z [_ Hz]%list_elem_of_filter.
    rewrite Forall_forall in Hlen. by apply Hlen.
  - apply Forall_forall. by intros z [Hz _]%list_elem_of_filter.
Qed.

(** Step 3 of [importData] as a whole. *)
Lemma prefetch_spec (records : list CSVRow) (w : World) :
  let uncachedZips :=
    filter (λ z, zipCache w !! z = None) (uniqueZips records) in
  let counts := (prefetch rt records w).1 in
  let w' := (prefetch rt records w).2 in
  (∀ k, k ∉ uncachedZips → zipCache w' !! k = zipCache w !! k)
  ∧ counts.1 + counts.2 = length uncachedZips
  ∧ counts.1
    = length (filter (λ z, truthy_opt (zipCache w' !! z) = true)
                     uncachedZips)
  ∧ ((∀ t url, caught (service rt t url) = false) →
     ∀ z, z ∈ uniqueZips records → is_Some (zipCache w' !! z))
  ∧ (uncachedZips = [] → prefetch rt records w = (0, 0, w))
  ∧ (uncachedZips ≠ [] → (saveZipCache w').2 = w').
Proof.
  intros uncachedZips.
  destruct (uncachedZips_spec records w) as (Hnd & Hlen & Hmiss).
  fold uncachedZips in Hnd, Hlen, Hmiss.
  assert (∀ z, z ∈ uniqueZips records → z ∉ uncachedZips →
               is_Some (zipCache w !! z)) as Hold.
  { intros z Hz Hnot. destruct (zipCache w !! z) eqn:Hc; [eauto|].
    destruct Hnot. by apply list_elem_of_filter. }
  unfold prefetch. fold uncachedZips.
  destruct (fetch_all_spec uncachedZips w 0 0 Hnd Hlen Hmiss)
    as (H1 & H2 & H3 & H4 & H5).
  destruct uncachedZips as [|zip rest] eqn:Hun.
  - simpl. repeat split; auto; try done.
    intros _ z Hz. apply Hold; [done|]. apply not_elem_of_nil.
  - unfold mbind, Run_bind.
    destruct (fetch_all rt (zip :: rest) 0 0 w) as [counts w1].
    simpl in *. split; [done|]. split; [lia|]. split; [lia|].
    split; [|done].
    intros Hnever z Hz. destruct (decide (z ∈ zip :: rest)) as [Hin|Hnot].
    + by apply H5.
    + rewrite H1 by done. by apply Hold.
Qed.

(** X9.  The two counters of the pre-fetch: together they count the zip
    codes that were not cached, each once; [fetched] counts those for which
    the cache holds coordinates afterwards.  The entries that the cache had
    are as they were. *)
Theorem prefetch_counts_each_uncached_zip_once
    (records : list CSVRow) (w : World) :
  let uncachedZips :=
    filter (λ z, zipCache w !! z = None) (uniqueZips records) in
  let fetched := (prefetch rt records w).1.1 in
  let failed := (prefetch rt records w).1.2 in
  let w' := (prefetch rt records w).2 in
  fetched + failed = length uncachedZips
  ∧ fetched
    = length (filter (λ z, truthy_opt (zipCache w' !! z) = true)
                     uncachedZips)
  ∧ ∀ k v, zipCache w !! k = Some v → zipCache w' !! k = Some v.
Proof.
  destruct (prefetch_spec records w) as (H1 & H2 & H3 & _).
  simpl. split; [done|]. split; [done|].
  intros k v Hk. rewrite H1; [done|].
  intros [Hnone _]%list_elem_of_filter. congruence.
Qed.

Lemma substring0_empty (n : nat) (s : string) :
  substring0 n s = "" → n = 0 ∨ s = "".
Proof. unfold substring0. destruct s, n; simpl; auto; discriminate. Qed.

Lemma substring0_substring0 (n m : nat) (s : string) :
  n ≤ m → substring0 n (substring0 m s) = substring0 n s.
Proof.
  unfold substring0. revert n m.
  induction s as [|c s IH]; intros [|n] [|m] Hle; simpl; try done; try lia.
  f_equal. apply IH. lia.
Qed.

(** The key under which the import loop looks a row up is the one the
    pre-fetch has used for it. *)
Lemma zip5_of_row (r : CSVRow) :
  ZipCode r ≠ "" →
  zip5_of (zipCode_of r) = Some (substring0 5 (ZipCode r))
  ∧ substring0 5 (ZipCode r) ≠ "".
Proof.
  intros Hne. unfold zip5_of, zipCode_of.
  destruct (String.eqb_spec (substring0 10 (ZipCode r)) "") as [He|_].
  - apply substring0_empty in He as [?|?]; [lia|done].
  - simpl. rewrite substring0_substring0 by lia. split; [done|].
    intros [?|?]%substring0_empty; [lia|done].
Qed.

(** X10.  When no request ends in the [catch] clause, the import loop
    that follows the pre-fetch finds every row decided: the lookup of its
    zip code in the cache is never [undefined], so that a row without
    geography is a row without a zip code or one whose zip code the service
    does not know. *)
Theorem import_finds_every_zip_decided (records : list CSVRow) (w : World) :
  (∀ t url, caught (service rt t url) = false) →
  let cache := zipCache (prefetch rt records w).2 in
  ∀ r, r ∈ records →
       is_Some (coords_of cache (zip5_of (zipCode_of r)))
       ∧ (geoQuery_accurate cache r = GeoNULL →
          ZipCode r = ""
          ∨ truthy_opt (cache !! substring0 5 (ZipCode r)) = false).
Proof.
  intros Hnever cache r Hr.
  destruct (prefetch_spec records w) as (_ & _ & _ & Hall & _).
  specialize (Hall Hnever). fold cache in Hall.
  destruct (String.eqb_spec (ZipCode r) "") as [Hempty|Hfull].
  - unfold geoQuery_accurate, zipCode_of, zip5_of, substring0.
    rewrite Hempty. simpl. eauto.
  - destruct (zip5_of_row r Hfull) as [Hz Hne].
    unfold geoQuery_accurate. rewrite Hz. simpl.
    rewrite (proj2 (String.eqb_neq _ _)) by done.
    assert (is_Some (cache !! substring0 5 (ZipCode r))) as [v Hv].
    { apply Hall, elem_of_uniqueZips. eauto. }
    rewrite Hv. split; [eauto|]. simpl. destruct (truthy v); [done|auto].
Qed.



(** X12.  After a pre-fetch none of whose requests ended in the [catch]
    clause, importing the same records again asks the service nothing and
    writes nothing: not in the same process, and, if the first run had zip
    codes to fetch, not in a new process that starts by loading the cache
    file which the first has left. *)
Theorem second_import_asks_nothing (records : list CSVRow) (w : World) :
  (∀ t url, caught (service rt t url) = false) →
  let uncachedZips :=
    filter (λ z, zipCache w !! z = None) (uniqueZips records) in
  let w1 := (prefetch rt records w).2 in
  let next :=
    (loadZipCache {| zipCache := ∅; cacheFile := cacheFile w1;
                     trace := [] |}).2 in
  prefetch rt records w1 = (0, 0, w1)
  ∧ (uncachedZips ≠ [] → prefetch rt records next = (0, 0, next)).
Proof.
  intros Hnever uncachedZips w1 next.
  destruct (prefetch_spec records w) as (_ & _ & _ & Hall & _ & Hsave).
  specialize (Hall Hnever). fold w1 in Hall, Hsave.
  split.
  - destruct (prefetch_spec records w1) as (_ & _ & _ & _ & Hnone & _).
    apply Hnone, filter_none. intros z Hz Hmiss.
    destruct (Hall z Hz) as [v Hv]. congruence.
  - intros Hsaved%Hsave.
    destruct (prefetch_spec records next) as (_ & _ & _ & _ & Hnone & _).
    apply Hnone, filter_none. intros z Hz Hmiss.
    assert (zipCache next = reloaded w1) as Hnext.
    { unfold next, reloaded. rewrite Hsaved.
      unfold loadZipCache, with_zipCache. simpl.
      destruct (cacheFile w1) as [[|data]|]; try done.
      by destruct (Object_entries data). }
    rewrite Hnext, reloaded_lookup in Hmiss.
    destruct (uniqueZips_spec records) as [_ Hlen].
    rewrite Forall_forall in Hlen. specialize (Hlen z Hz).
    case_decide as Hproto; [subst z; simpl in Hlen; lia|].
    destruct (Hall z Hz) as [v Hv]. by rewrite Hv in Hmiss.
Qed.

End batch_more.

Section batch_more_examples.
Import Js Accurate Rows.

Lemma reliable_service_answers (t : list Event) (url : string) :
  caught (service reliable_runtime t url) = false.
Proof.
  simpl. unfold reliable_service.
  by destruct (String.eqb url (api_url "44289")).
Qed.

Lemma import_finds_every_zip_decided_witness :
  is_Some (coords_of (zipCache (prefetch reliable_runtime twelve_rows warm).2)
                     (zip5_of (zipCode_of {| ZipCode := "44256-1234" |}))).
Proof.
  apply (import_finds_every_zip_decided reliable_runtime twelve_rows warm
           reliable_service_answers {| ZipCode := "44256-1234" |}).
  apply list_elem_of_further, list_elem_of_here.
Defined.


Lemma second_import_asks_nothing_witness :
  prefetch reliable_runtime twelve_rows
    (prefetch reliable_runtime twelve_rows warm).2
  = (0, 0, (prefetch reliable_runtime twelve_rows warm).2).
Proof.
  apply (second_import_asks_nothing reliable_runtime twelve_rows warm
           reliable_service_answers).
Defined.

End batch_more_examples.

(** ** The import loops *)

Section import_loops.
Import Js Accurate Rows.

Lemma hundreds_begun (n : nat) :
  0 < n → S ((n - 100 + (100 - 1)) / 100) = (n + (100 - 1)) / 100.
Proof.
  intros Hn. destruct (decide (n < 100)) as [Hlast|Hmore].
  - replace (n - 100) with 0 by lia.
    rewrite (Nat.div_small (0 + _)) by lia.
    apply (Nat.div_unique _ _ _ (n - 1)); lia.
  - replace (n + (100 - 1)) with (n - 100 + (100 - 1) + 1 * 100) by lia.
    rewrite Nat.div_add by lia. lia.
Qed.

(** The batches from the index [i] on hold what the records have from
    there, when the rounds are not cut short. *)
Lemma batches_from_spec {A : Type} (records : list A) (fuel : nat) :
  ∀ i, length records ≤ i + fuel * BATCH_SIZE →
       concat (batches_from fuel i records) = drop i records
       ∧ Forall (λ b, 0 < length b ≤ BATCH_SIZE) (batches_from fuel i records)
       ∧ length (batches_from fuel i records)
         = (length records - i + (BATCH_SIZE - 1)) / BATCH_SIZE.
Proof.
  induction fuel as [|fuel IH]; intros i Hfuel; cbn [batches_from];
    change BATCH_SIZE with 100 in *.
  - rewrite drop_ge by lia. split; [done|]. split; [done|].
    replace (length records - i) with 0 by lia. done.
  - case_decide as Hi.
    + destruct (IH (i + 100)) as (Hcat & Hlen & Hnum); [lia|].
      unfold slice. replace (i + 100 - i) with 100 by lia.
      cbn [concat length]. split; [|split].
      * rewrite Hcat, <- drop_drop. apply take_drop.
      * apply Forall_cons. split; [|done].
        rewrite length_take, length_drop. lia.
      * rewrite Hnum, <- (hundreds_begun (length records - i)) by lia.
        do 3 f_equal. lia.
    + rewrite drop_ge by lia. split; [done|]. split; [done|].
      replace (length records - i) with 0 by lia. done.
Qed.

(** X13.  The batches of the import loop are the records cut into pieces
    of a hundred: put end to end they are the records, none is empty or
    longer than a hundred, and there are as many as there are hundreds
    begun. *)
Theorem batches_cover_the_records {A : Type} (records : list A) :
  concat (batches records) = records
  ∧ Forall (λ b, 0 < length b ≤ BATCH_SIZE) (batches records)
  ∧ length (batches records) = (length records + 99) / 100.
Proof.
  destruct (batches_from_spec records (length records) 0)
    as (Hcat & Hlen & Hnum); [unfold BATCH_SIZE; lia|].
  unfold batches. split; [done|]. split; [done|].
  rewrite Hnum. unfold BATCH_SIZE. by rewrite Nat.sub_0_r.
Qed.

Lemma foldl_concat {A B : Type} (f : B → A → B) (ls : list (list A)) :
  ∀ b, foldl (λ st l, foldl f st l) b ls = foldl f b (concat ls).
Proof.
  induction ls as [|l ls IH]; intros b; simpl; [done|].
  by rewrite foldl_app, IH.
Qed.

Lemma import_rows_unbatched (geo : CSVRow → GeoQuery)
    (accepts : list Insert → Insert → bool) (table : list Insert)
    (records : list CSVRow) :
  import_rows geo accepts table records
  = foldl (import_row geo accepts)
          (table,
           {| inserted := 0; errors := 0; withGeo := 0; withoutGeo := 0 |})
          records.
Proof.
  unfold import_rows. rewrite foldl_concat.
  destruct (batches_from_spec records (length records) 0) as [Hcat _];
    [unfold BATCH_SIZE; lia|].
  unfold batches. by rewrite Hcat.
Qed.

(** X14.  The batches cannot be seen in the result of the import: the rows
    are tried one after the other, each once, in the order of the file. *)
Theorem import_tries_each_row_once_in_order (geo : CSVRow → GeoQuery)
    (accepts : list Insert → Insert → bool) (table : list Insert)
    (records more : list CSVRow) :
  import_rows geo accepts table (records ++ more)
  = foldl (import_row geo accepts)
          (import_rows geo accepts table records) more.
Proof. by rewrite !import_rows_unbatched, foldl_app. Qed.

(** The inner loop, from any state. *)
Lemma import_row_fold (geo : CSVRow → GeoQuery)
    (accepts : list Insert → Insert → bool) (rows : list CSVRow) :
  ∀ st : list Insert * Tally,
    let st' := foldl (import_row geo accepts) st rows in
    inserted st'.2 + errors st'.2
    = inserted st.2 + errors st.2 + length rows
    ∧ withGeo st'.2
      = withGeo st.2 + length (filter (λ r, is_point (geo r) = true) rows)
    ∧ withGeo st'.2 + withoutGeo st'.2
      = withGeo st.2 + withoutGeo st.2 + length rows
    ∧ inserted st.2 ≤ inserted st'.2
    ∧ ∃ new,
        st'.1 = st.1 ++ new
        ∧ length new = inserted st'.2 - inserted st.2
        ∧ sublist (row <$> new) rows
        ∧ Forall (λ ins, zipCode ins = zipCode_of (row ins)
                         ∧ geoQuery ins = geo (row ins)) new.
Proof.
  induction rows as [|r rows IH]; intros [table t]; simpl.
  - repeat split; try lia. exists []. rewrite app_nil_r. repeat split; try done.
    simpl. lia.
  - set (ins := {| row := r; zipCode := zipCode_of r; geoQuery := geo r |}).
    rewrite filter_cons.
    destruct (geo r) eqn:Hgeo; destruct (accepts table ins) eqn:Hacc;
      match goal with
      | |- context [foldl _ ?s rows] =>
          destruct (IH s) as (H1 & H2 & H3 & H4 & new & H5 & H6 & H7 & H8)
      end; simpl in *;
      simpl; repeat (split; [lia|]).
    all: try (exists (ins :: new); rewrite H5, <- app_assoc; simpl;
              split; [done|]; split; [lia|]; split;
              [by apply sublist_skip|];
              apply Forall_cons; split; [by subst ins; simpl|done]).
    all: exists new; split; [done|]; split; [lia|]; split;
           [by apply sublist_cons|done].
Qed.

(** X15.  The counters of the import add up: every record is inserted or
    counted as an error, and is counted with or without geography, before
    its insert is tried; the table grows by the rows inserted, which are
    records in the order of the file, each with the zip code and the
    geography worked out for it. *)
Theorem import_counters_add_up (geo : CSVRow → GeoQuery)
    (accepts : list Insert → Insert → bool) (table : list Insert)
    (records : list CSVRow) :
  let table' := (import_rows geo accepts table records).1 in
  let t := (import_rows geo accepts table records).2 in
  inserted t + errors t = length records
  ∧ withGeo t + withoutGeo t = length records
  ∧ withGeo t = length (filter (λ r, is_point (geo r) = true) records)
  ∧ ∃ new,
      table' = table ++ new
      ∧ length new = inserted t
      ∧ sublist (row <$> new) records
      ∧ Forall (λ ins, zipCode ins = zipCode_of (row ins)
                       ∧ geoQuery ins = geo (row ins)) new.
Proof.
  rewrite import_rows_unbatched.
  destruct (import_row_fold geo accepts records
              (table, {| inserted := 0; errors := 0;
                         withGeo := 0; withoutGeo := 0 |}))
    as (H1 & H2 & H3 & H4 & new & H5 & H6 & H7 & H8).
  simpl in *. repeat (split; [lia|]). exists new.
  split; [done|]. split; [lia|]. done.
Qed.


(** The rows of the table that have a geography, along the inner loop. *)
Lemma import_row_fold_geo (geo : CSVRow → GeoQuery)
    (accepts : list Insert → Insert → bool) (rows : list CSVRow) :
  ∀ st : list Insert * Tally,
    let st' := foldl (import_row geo accepts) st rows in
    let geoCount (table : list Insert) :=
      length (filter (λ ins, has_geo ins = true) table) in
    withGeo st.2 ≤ withGeo st'.2
    ∧ errors st.2 ≤ errors st'.2
    ∧ geoCount st'.1 ≤ geoCount st.1 + (withGeo st'.2 - withGeo st.2)
    ∧ (errors st'.2 = errors st.2 →
       geoCount st'.1 = geoCount st.1 + (withGeo st'.2 - withGeo st.2)).
Proof.
  induction rows as [|r rows IH]; intros [table t]; simpl.
  - repeat split; lia.
  - set (ins := {| row := r; zipCode := zipCode_of r; geoQuery := geo r |}).
    assert (has_geo ins = is_point (geo r)) as Hins by done.
    destruct (geo r) eqn:Hgeo; destruct (accepts table ins) eqn:Hacc;
      match goal with
      | |- context [foldl _ ?s rows] =>
          destruct (IH s) as (H1 & H2 & H3 & H4)
      end; simpl in *;
      rewrite ?filter_app, ?length_app, ?filter_cons, ?Hins in *;
      simpl in *; repeat split; lia.
Qed.

(** X16.  The count [withGeo] is taken before the insert is tried, so it
    bounds the number of rows that the table gains with a geography, and
    is that number when no insert has failed; this is the count that
    [import-to-ray-test.ts] reads back from the table at the end. *)
Theorem withGeo_counts_the_rows_tried (geo : CSVRow → GeoQuery)
    (accepts : list Insert → Insert → bool) (table : list Insert)
    (records : list CSVRow) :
  let table' := (import_rows geo accepts table records).1 in
  let t := (import_rows geo accepts table records).2 in
  let geoCount (table : list Insert) :=
    length (filter (λ ins, has_geo ins = true) table) in
  geoCount table' ≤ geoCount table + withGeo t
  ∧ (errors t = 0 → geoCount table' = geoCount table + withGeo t).
Proof.
  rewrite import_rows_unbatched.
  destruct (import_row_fold_geo geo accepts records
              (table, {| inserted := 0; errors := 0;
                         withGeo := 0; withoutGeo := 0 |}))
    as (H1 & H2 & H3 & H4).
  simpl in *. split; [lia|]. intros Hno. rewrite H4 by done. lia.
Qed.

(** The geography of a row in the accurate import: a point exactly when
    the row has a zip code whose first five characters have coordinates in
    the cache, and then the point of these. *)
Lemma geoQuery_accurate_spec (cache : gmap string json) (r : CSVRow) :
  geoQuery_accurate cache r
  = if decide (ZipCode r ≠ ""
               ∧ truthy_opt (cache !! substring0 5 (ZipCode r)) = true)
    then GeoPoint (cache !! substring0 5 (ZipCode r) ≫= λ c, get c "lat")
                  (cache !! substring0 5 (ZipCode r) ≫= λ c, get c "lng")
    else GeoNULL.
Proof.
  unfold geoQuery_accurate.
  destruct (String.eqb_spec (ZipCode r) "") as [Hempty|Hfull].
  - rewrite decide_False by (by intros [? _]).
    unfold zipCode_of, zip5_of, substring0. by rewrite Hempty.
  - destruct (zip5_of_row r Hfull) as [-> Hne]. simpl.
    rewrite (proj2 (String.eqb_neq _ _)) by done.
    destruct (cache !! substring0 5 (ZipCode r)) as [v|]; simpl.
    + destruct (truthy v) eqn:Hv.
      * by rewrite decide_True.
      * rewrite decide_False; [done|]. by intros [_ ?].
    + rewrite decide_False; [done|]. by intros [_ ?].
Qed.

(** X17.  In the accurate import a row has a geography exactly when it
    has a zip code and the cache holds coordinates under the first five
    characters of it; [withGeo] counts these rows, and the point is made of
    the cached latitude and longitude. *)
Theorem accurate_import_reads_the_cache (cache : gmap string json)
    (accepts : list Insert → Insert → bool) (records : list CSVRow) :
  let located (r : CSVRow) :=
    ZipCode r ≠ "" ∧ truthy_opt (cache !! substring0 5 (ZipCode r)) = true in
  let t := (import_rows (geoQuery_accurate cache) accepts [] records).2 in
  withGeo t = length (filter located records)
  ∧ withoutGeo t = length records - length (filter located records)
  ∧ ∀ r, geoQuery_accurate cache r
         = if decide (located r)
           then GeoPoint
                  (cache !! substring0 5 (ZipCode r) ≫= λ c, get c "lat")
                  (cache !! substring0 5 (ZipCode r) ≫= λ c, get c "lng")
           else GeoNULL.
Proof.
  intros located t. subst t. rewrite import_rows_unbatched.
  destruct (import_row_fold (geoQuery_accurate cache) accepts records
              ([], {| inserted := 0; errors := 0;
                      withGeo := 0; withoutGeo := 0 |}))
    as (_ & H3 & H2 & _).
  simpl in H2, H3.
  assert (filter (λ r, is_point (geoQuery_accurate cache r) = true) records
          = filter located records) as Hfilter.
  { apply list_filter_iff. intros r. rewrite geoQuery_accurate_spec.
    fold (located r). case_decide; simpl; split; try done. }
  rewrite Hfilter in H3. split; [done|]. split; [lia|].
  intros r. apply geoQuery_accurate_spec.
Qed.

End import_loops.

(** ** The import of [import-to-ray-test.ts] *)

Section approximate_import.
Import Js Accurate Rows.

Lemma substring0_length_min (n : nat) (s : string) :
  String.length (substring0 n s) = n `min` String.length s.
Proof.
  unfold substring0. revert n.
  induction s as [|c s IH]; intros [|n]; simpl; try done.
  by rewrite IH.
Qed.

(** The approximate location looks at the first three characters only. *)
Lemma getApproximateLocation_prefix (n : nat) (zipCode : string) :
  3 ≤ n →
  Approximate.getApproximateLocation (substring0 n zipCode)
  = Approximate.getApproximateLocation zipCode.
Proof.
  intros Hn. unfold Approximate.getApproximateLocation.
  rewrite substring0_length_min.
  change (String.substring 0 3 (substring0 n zipCode))
    with (substring0 3 (substring0 n zipCode)).
  rewrite substring0_substring0 by done.
  repeat case_bool_decide; try done; lia.
Qed.

(** X18.  The approximate location depends on the first three characters
    of the zip code only: cutting the zip code to ten characters, as the
    import does, or to five, as the accurate import does, changes nothing;
    so a row of [import-to-ray-test.ts] has a geography exactly when its
    zip code has an approximate location, and [withGeo] counts these
    rows. *)
Theorem approximate_import_reads_three_characters
    (accepts : list Insert → Insert → bool) (table : list Insert)
    (records : list CSVRow) :
  let located (r : CSVRow) :=
    is_Some (Approximate.getApproximateLocation (ZipCode r)) in
  let t := (import_rows geoQuery_approximate accepts table records).2 in
  (∀ n zipCode,
     3 ≤ n →
     Approximate.getApproximateLocation (substring0 n zipCode)
     = Approximate.getApproximateLocation zipCode)
  ∧ (∀ r, geoQuery_approximate r
          = match Approximate.getApproximateLocation (ZipCode r) with
            | Some coords =>
                GeoPoint (Some (JNum (Approximate.lat coords)))
                         (Some (JNum (Approximate.lng coords)))
            | None => GeoNULL
            end)
  ∧ withGeo t = length (filter located records).
Proof.
  intros located t.
  assert (∀ r, geoQuery_approximate r
               = match Approximate.getApproximateLocation (ZipCode r) with
                 | Some coords =>
                     GeoPoint (Some (JNum (Approximate.lat coords)))
                              (Some (JNum (Approximate.lng coords)))
                 | None => GeoNULL
                 end) as Hgeo.
  { intros r. unfold geoQuery_approximate, zipCode_of.
    destruct (String.eqb_spec (substring0 10 (ZipCode r)) "") as [He|_].
    - apply substring0_empty in He as [?|He]; [lia|]. by rewrite He.
    - simpl. by rewrite getApproximateLocation_prefix by lia. }
  split; [apply getApproximateLocation_prefix|]. split; [done|].
  subst t. rewrite import_rows_unbatched.
  destruct (import_row_fold geoQuery_approximate accepts records
              (table, {| inserted := 0; errors := 0;
                         withGeo := 0; withoutGeo := 0 |}))
    as (_ & H2 & _).
  simpl in H2. rewrite H2. f_equal. apply list_filter_iff.
  intros r. rewrite Hgeo. unfold located.
  destruct (Approximate.getApproximateLocation (ZipCode r)); simpl.
  - split; eauto.
  - split; [done|]. by intros [? ?].
Qed.

End approximate_import.

(** ** Dates *)

Section parsing_dates.
Import Approximate Dates.

Lemma take_digits_spec (max : nat) :
  ∀ s ds rest,
    take_digits max s = (ds, rest) →
    s = ds +:+ rest ∧ all_digits ds = true ∧ String.length ds ≤ max
    ∧ (String.length ds < max → no_digit_next rest).
Proof.
  induction max as [|max IH]; intros s ds rest; simpl.
  - destruct s; intros [= <- <-]; simpl; repeat split; auto; lia.
  - destruct s as [|c s].
    + intros [= <- <-]. simpl. repeat split; auto; lia.
    + destruct (is_digit c) eqn:Hc.
      * destruct (take_digits max s) as [ds' rest'] eqn:Hrec.
        intros [= <- <-]. destruct (IH _ _ _ Hrec) as (-> & Hall & Hlen & Hnext).
        simpl. unfold all_digits in *. simpl. rewrite Hc, Hall.
        repeat split; auto; try lia. intros Hlt. apply Hnext. lia.
      * intros [= <- <-]. simpl. repeat split; auto; lia.
Qed.

Lemma take_digits_app (max : nat) :
  ∀ ds rest,
    all_digits ds = true → String.length ds ≤ max →
    (String.length ds < max → no_digit_next rest) →
    take_digits max (ds +:+ rest) = (ds, rest).
Proof.
  unfold all_digits.
  induction max as [|max IH]; intros ds rest Hall Hlen Hnext.
  - destruct ds; simpl in *; [|lia]. by destruct rest.
  - destruct ds as [|c ds]; simpl in *.
    + destruct rest as [|c rest]; simpl; [done|].
      simpl in Hnext. by rewrite Hnext by lia.
    + apply andb_prop in Hall as [Hc Hall]. rewrite Hc.
      rewrite IH; [done|done|lia|]. intros Hlt. apply Hnext. lia.
Qed.

Lemma digits_spec (min max : nat) (s ds rest : string) :
  digits min max s = Some (ds, rest) →
  s = ds +:+ rest ∧ all_digits ds = true
  ∧ min ≤ String.length ds ≤ max
  ∧ (String.length ds < max → no_digit_next rest).
Proof.
  unfold digits. destruct (take_digits max s) as [ds' rest'] eqn:Htake.
  case_decide as Hmin; [|done]. intros [= <- <-].
  destruct (take_digits_spec _ _ _ _ Htake) as (? & ? & ? & ?).
  repeat split; auto.
Qed.

Lemma digits_app (min max : nat) (ds rest : string) :
  all_digits ds = true → min ≤ String.length ds ≤ max →
  (String.length ds < max → no_digit_next rest) →
  digits min max (ds +:+ rest) = Some (ds, rest).
Proof.
  intros Hall Hlen Hnext. unfold digits.
  rewrite take_digits_app by (done || lia). by rewrite decide_True by lia.
Qed.

Lemma literal_spec (c : ascii) (s rest : string) :
  literal c s = Some rest ↔ s = String c rest.
Proof.
  unfold literal. destruct s as [|c' s]; [done|].
  destruct (Ascii.eqb_spec c' c) as [->|Hne]; split; congruence.
Qed.

Lemma is_digit_slash : is_digit "/" = false.
Proof. reflexivity. Qed.

Lemma is_digit_dash : is_digit "-" = false.
Proof. reflexivity. Qed.

Lemma append_empty_r (s : string) : s +:+ "" = s.
Proof.
  induction s as [|c s IH]; [done|].
  change (String c (s +:+ "") = String c s). by f_equal.
Qed.

Lemma append_cons (c : ascii) (s t : string) :
  String c s +:+ t = String c (s +:+ t).
Proof. done. Qed.

Lemma append_empty_l (t : string) : "" +:+ t = t.
Proof. done. Qed.

Lemma match_mdy_spec (s month day year : string) :
  match_mdy s = Some (month, day, year)
  ↔ s = month +:+ "/" +:+ day +:+ "/" +:+ year
    ∧ all_digits month = true ∧ 1 ≤ String.length month ≤ 2
    ∧ all_digits day = true ∧ 1 ≤ String.length day ≤ 2
    ∧ all_digits year = true ∧ String.length year = 4.
Proof.
  unfold match_mdy. split.
  - destruct (digits 1 2 s) as [[m s1]|] eqn:H1; simpl; [|done].
    destruct (literal "/" s1) as [s2|] eqn:H2; simpl; [|done].
    destruct (digits 1 2 s2) as [[d s3]|] eqn:H3; simpl; [|done].
    destruct (literal "/" s3) as [s4|] eqn:H4; simpl; [|done].
    destruct (digits 4 4 s4) as [[y s5]|] eqn:H5; simpl; [|done].
    destruct (String.eqb_spec s5 "") as [->|]; [|done].
    intros [= <- <- <-].
    apply digits_spec in H1 as (-> & ? & ? & _).
    apply literal_spec in H2 as ->.
    apply digits_spec in H3 as (-> & ? & ? & _).
    apply literal_spec in H4 as ->.
    apply digits_spec in H5 as (-> & ? & ? & _).
    rewrite append_empty_r. repeat split; auto; lia.
  - intros (-> & Hm & Hlm & Hd & Hld & Hy & Hly).
    rewrite digits_app by done.
    rewrite append_cons, append_empty_l. simpl.
    rewrite digits_app by done.
    rewrite append_cons, append_empty_l. simpl.
    rewrite <- (append_empty_r year) at 1.
    rewrite digits_app by (done || lia). simpl. done.
Qed.

Lemma match_ymd_spec (s year month day : string) :
  match_ymd s = Some (year, month, day)
  ↔ s = year +:+ "-" +:+ month +:+ "-" +:+ day
    ∧ all_digits year = true ∧ String.length year = 4
    ∧ all_digits month = true ∧ String.length month = 2
    ∧ all_digits day = true ∧ String.length day = 2.
Proof.
  unfold match_ymd. split.
  - destruct (digits 4 4 s) as [[y s1]|] eqn:H1; simpl; [|done].
    destruct (literal "-" s1) as [s2|] eqn:H2; simpl; [|done].
    destruct (digits 2 2 s2) as [[m s3]|] eqn:H3; simpl; [|done].
    destruct (literal "-" s3) as [s4|] eqn:H4; simpl; [|done].
    destruct (digits 2 2 s4) as [[d s5]|] eqn:H5; simpl; [|done].
    destruct (String.eqb_spec s5 "") as [->|]; [|done].
    intros [= <- <- <-].
    apply digits_spec in H1 as (-> & ? & ? & _).
    apply literal_spec in H2 as ->.
    apply digits_spec in H3 as (-> & ? & ? & _).
    apply literal_spec in H4 as ->.
    apply digits_spec in H5 as (-> & ? & ? & _).
    rewrite append_empty_r. repeat split; auto; lia.
  - intros (-> & Hy & Hly & Hm & Hlm & Hd & Hld).
    rewrite digits_app by (done || lia).
    rewrite append_cons, append_empty_l. simpl.
    rewrite digits_app by (done || lia).
    rewrite append_cons, append_empty_l. simpl.
    rewrite <- (append_empty_r day) at 1.
    rewrite digits_app by (done || lia). simpl. done.
Qed.

(** X19.  The first pattern of [parseDate] matches the strings made of a
    month of one or two digits, a slash, a day of one or two digits, a
    slash and a year of four digits, and no others; the groups are the
    month, the day and the year. *)
Theorem first_pattern_is_month_day_year (s month day year : string) :
  match_mdy s = Some (month, day, year)
  ↔ s = month +:+ "/" +:+ day +:+ "/" +:+ year
    ∧ all_digits month = true ∧ 1 ≤ String.length month ≤ 2
    ∧ all_digits day = true ∧ 1 ≤ String.length day ≤ 2
    ∧ all_digits year = true ∧ String.length year = 4.
Proof. apply match_mdy_spec. Qed.

(** X20.  The second pattern of [parseDate] matches the strings made of a
    year of four digits, a hyphen, a month of two digits, a hyphen and a
    day of two digits, and no others. *)
Theorem second_pattern_is_year_month_day (s year month day : string) :
  match_ymd s = Some (year, month, day)
  ↔ s = year +:+ "-" +:+ month +:+ "-" +:+ day
    ∧ all_digits year = true ∧ String.length year = 4
    ∧ all_digits month = true ∧ String.length month = 2
    ∧ all_digits day = true ∧ String.length day = 2.
Proof. apply match_ymd_spec. Qed.

(** The ten digits, one after the other. *)
Ltac each_digit c H :=
  destruct c as [[] [] [] [] [] [] [] []];
  try (vm_compute in H; discriminate H).

Lemma digit_is_no_white_space (c : ascii) :
  is_digit c = true → is_white_space c = false.
Proof. intros H. each_digit c H; reflexivity. Qed.

Lemma digit_value_of_digit (c : ascii) :
  is_digit c = true → is_Some (digit_value 10 c).
Proof. intros H. each_digit c H; vm_compute; eauto. Qed.

Lemma leading_digits_of_digits (s : string) :
  all_digits s = true →
  ∀ acc, is_Some (leading_digits 10 (Some acc) s).
Proof.
  unfold all_digits.
  induction s as [|c s IH]; simpl; intros Hall acc; [eauto|].
  apply andb_prop in Hall as [Hc Hall].
  destruct (digit_value_of_digit c Hc) as [d ->]. by apply IH.
Qed.

(** [parseInt] of a group of digits is a number. *)
Lemma parseInt_of_digits (s : string) :
  all_digits s = true → s ≠ "" → is_Some (parseInt s).
Proof.
  unfold all_digits. destruct s as [|c s]; [done|]. simpl.
  intros [Hc Hall]%andb_prop _.
  assert (∀ acc, is_Some ((λ n, 1 * n)%Z <$> leading_digits 10 (Some acc) s))
    as Hrest.
  { intros acc. destruct (leading_digits_of_digits s Hall acc) as [v ->].
    simpl. eauto. }
  each_digit c Hc; unfold parseInt; simpl; try apply Hrest.
  destruct s as [|c2 s]; [simpl; eauto|].
  simpl in Hall. apply andb_prop in Hall as [Hc2 Hall].
  assert (∀ acc, is_Some ((λ n, 1 * n)%Z <$> leading_digits 10 (Some acc) s))
    as Hrest2.
  { intros acc. destruct (leading_digits_of_digits s Hall acc) as [v ->].
    simpl. eauto. }
  each_digit c2 Hc2; simpl; apply Hrest2.
Qed.

(** A zero before a digit does not change what [parseInt] reads. *)
Lemma parseInt_leading_zero (c : ascii) :
  is_digit c = true →
  parseInt (String "0" (String c "")) = parseInt (String c "").
Proof. intros H. each_digit c H; reflexivity. Qed.

Lemma digits_first_not_blank (ds rest : string) :
  all_digits ds = true → 1 ≤ String.length ds →
  String.eqb (ds +:+ rest) "" || blank (ds +:+ rest) = false.
Proof.
  unfold all_digits. destruct ds as [|c ds]; simpl; [lia|].
  intros [Hc _]%andb_prop _. rewrite append_cons. unfold blank. simpl.
  by rewrite (digit_is_no_white_space c Hc).
Qed.

(** A string that the first pattern matches. *)
Lemma parseDate_mdy (Date_parse : string → option Z)
    (s month day year : string) :
  match_mdy s = Some (month, day, year) →
  parseDate Date_parse s
  = Some (Date_of (parseInt year) ((λ m, m - 1)%Z <$> parseInt month)
                  (parseInt day)).
Proof.
  intros Hm. unfold parseDate. rewrite Hm.
  apply match_mdy_spec in Hm as (-> & Hall & Hlen & _).
  by rewrite digits_first_not_blank by (done || lia).
Qed.

(** No string is matched by both patterns. *)
Lemma patterns_disjoint (s : string) (g1 g2 : string * string * string) :
  match_mdy s = Some g1 → match_ymd s = Some g2 → False.
Proof.
  destruct g1 as [[m d] y], g2 as [[y' m'] d'].
  intros (-> & Hm & Hlm & _)%match_mdy_spec
         (Heq & Hy & Hly & _)%match_ymd_spec.
  unfold all_digits in *.
  destruct y' as [|a [|b [|c [|e [|]]]]]; simpl in Hly; try lia.
  simpl in Hy. apply andb_prop in Hy as [_ [Hb [Hc _]%andb_prop]%andb_prop].
  destruct m as [|p [|q [|]]]; simpl in Hlm; try lia;
    rewrite !append_cons, !append_empty_l in Heq;
    injection Heq as; subst; vm_compute in Hb, Hc; discriminate.
Qed.

(** A string that the second pattern matches. *)
Lemma parseDate_ymd (Date_parse : string → option Z)
    (s year month day : string) :
  match_ymd s = Some (year, month, day) →
  parseDate Date_parse s
  = Some (Date_of (parseInt year) ((λ m, m - 1)%Z <$> parseInt month)
                  (parseInt day)).
Proof.
  intros Hm. unfold parseDate.
  destruct (match_mdy s) as [g|] eqn:Hmdy;
    [destruct (patterns_disjoint s _ _ Hmdy Hm)|].
  rewrite Hm.
  apply match_ymd_spec in Hm as (-> & Hall & Hlen & _).
  by rewrite digits_first_not_blank by (done || lia).
Qed.

(** X21.  No string is matched by both patterns of [parseDate], so that
    the order in which it tries them does not matter. *)
Theorem patterns_exclude_each_other (s : string) :
  match_mdy s = None ∨ match_ymd s = None.
Proof.
  destruct (match_mdy s) as [g1|] eqn:H1; [|by left].
  destruct (match_ymd s) as [g2|] eqn:H2; [|by right].
  destruct (patterns_disjoint s g1 g2 H1 H2).
Qed.

(** X22.  A date written with a month and a day of two digits is read the
    same in both formats, whatever the digits are: the result is a [Date]
    made of three numbers, never [null], and [new Date(dateStr)] is not
    consulted. *)
Theorem both_formats_give_the_same_date (Date_parse : string → option Z)
    (year month day : string) :
  all_digits year = true → String.length year = 4 →
  all_digits month = true → String.length month = 2 →
  all_digits day = true → String.length day = 2 →
  parseDate Date_parse (month +:+ "/" +:+ day +:+ "/" +:+ year)
  = parseDate Date_parse (year +:+ "-" +:+ month +:+ "-" +:+ day)
  ∧ ∃ y m d : Z,
      parseDate Date_parse (year +:+ "-" +:+ month +:+ "-" +:+ day)
      = Some (Date_of (Some y) (Some (m - 1)%Z) (Some d)).
Proof.
  intros Hy Hly Hm Hlm Hd Hld.
  rewrite (parseDate_mdy Date_parse _ month day year)
    by (apply match_mdy_spec; repeat split; auto; lia).
  rewrite (parseDate_ymd Date_parse _ year month day)
    by (apply match_ymd_spec; repeat split; auto; lia).
  split; [done|].
  destruct (parseInt_of_digits year Hy) as [y ->];
    [by intros ->; simpl in Hly|].
  destruct (parseInt_of_digits month Hm) as [m ->];
    [by intros ->; simpl in Hlm|].
  destruct (parseInt_of_digits day Hd) as [d ->];
    [by intros ->; simpl in Hld|].
  by exists y, m, d.
Qed.

(** X23.  A month or a day of one digit is read as the same digit after a
    zero. *)
Theorem one_digit_is_read_as_two (Date_parse : string → option Z)
    (month day : ascii) (year : string) :
  is_digit month = true → is_digit day = true →
  all_digits year = true → String.length year = 4 →
  parseDate Date_parse
    (String month "" +:+ "/" +:+ String day "" +:+ "/" +:+ year)
  = parseDate Date_parse
      (String "0" (String month "") +:+ "/"
       +:+ String "0" (String day "") +:+ "/" +:+ year).
Proof.
  intros Hm Hd Hy Hly.
  rewrite (parseDate_mdy Date_parse _ (String month "") (String day "") year).
  2:{ apply match_mdy_spec. unfold all_digits. simpl. rewrite Hm, Hd.
      repeat split; auto; lia. }
  rewrite (parseDate_mdy Date_parse _ (String "0" (String month ""))
             (String "0" (String day "")) year).
  2:{ apply match_mdy_spec. unfold all_digits. simpl. rewrite Hm, Hd.
      repeat split; auto; lia. }
  by rewrite !parseInt_leading_zero.
Qed.

End parsing_dates.

Section parsing_dates_examples.
Import Approximate Dates Rows.

Lemma both_formats_give_the_same_date_witness :
  parseDate no_format "03/15/2024" = parseDate no_format "2024-03-15".
Proof.
  apply (both_formats_give_the_same_date no_format "2024" "03" "15");
    reflexivity.
Defined.

Lemma one_digit_is_read_as_two_witness :
  parseDate no_format "3/5/2024" = parseDate no_format "03/05/2024".
Proof.
  apply (one_digit_is_read_as_two no_format "3" "5" "2024"); reflexivity.
Defined.

End parsing_dates_examples.
